(** * Tahoe-LAFS storage client: the HTTP client for immutable shares

    A shallow embedding of [allmydata/storage/http_client.py] and of the
    peer permutation exercised by [allmydata/test/test_client.py].

    Python [bytes] and (8-bit) [str] values are both carried by [string];
    a character above 127 stands for text that the ASCII codec rejects.
    Python [int] is [Z].  Exceptions are values of [exn]; a call that may
    raise returns a [Result].  The asynchronous calls ([inlineCallbacks],
    [yield]) are sequenced in a state-and-error monad [M] over the
    [World]: what went out on the wire and the state of the far end. *)

From Stdlib Require Import ZArith List String Ascii Lia Bool DecimalString.
From stdpp Require Import base option list sorting gmap listset strings.

Local Open Scope string_scope.
Local Open Scope Z_scope.

(** ** Python values, exceptions and results *)

Abbreviation bytes := string (only parsing).

Inductive exn : Type :=
| ClientException (code : Z) (phrase : option string)
| AssertionError
| IndexError
| KeyError (key : string)
| TypeError
| ValueError
| UnicodeError
| CBORDecodeError
| UnsupportedKey
| TransportFailure (reason : string).

Inductive Result (A : Type) : Type :=
| Ok (a : A)
| Raise (e : exn).
Arguments Ok {A} a.
Arguments Raise {A} e.

Definition bindR {A B} (r : Result A) (k : A -> Result B) : Result B :=
  match r with
  | Ok a => k a
  | Raise e => Raise e
  end.

Notation "x <-? e ;; k" := (bindR e (fun x => k))
  (at level 100, e at next level, right associativity).

(** [assert cond] *)
Definition assert (cond : bool) : Result unit :=
  if cond then Ok tt else Raise AssertionError.

(** What [cbor2.loads] hands back: the Python objects a CBOR item decodes
    to.  [VDict] lists the items of the dict (keys distinct), [VSet] the
    elements of a set. *)
#[warnings="-register-all"]
Inductive value : Type :=
| VNone
| VBool (b : bool)
| VInt (z : Z)
| VBytes (b : string)
| VText (s : string)
| VList (l : list value)
| VSet (l : list value)
| VDict (items : list (value * value)).

(** [d[key]] for a text key. *)
Fixpoint dict_lookup (key : string) (items : list (value * value)) : option value :=
  match items with
  | [] => None
  | (VText k, v) :: rest => if String.eqb k key then Some v else dict_lookup key rest
  | _ :: rest => dict_lookup key rest
  end.

(** [obj[key]] where [key] is a [str]: only a dict can be indexed by text. *)
Definition getitem (obj : value) (key : string) : Result value :=
  match obj with
  | VDict items =>
      match dict_lookup key items with
      | Some v => Ok v
      | None => Raise (KeyError key)
      end
  | _ => Raise TypeError
  end.

(** [iter(obj)]: the elements a [for] loop or [set(...)] walks over. *)
Definition iterate (obj : value) : Result (list value) :=
  match obj with
  | VList l => Ok l
  | VSet l => Ok l
  | VDict items => Ok (map fst items)
  | VText s => Ok (map (fun c => VText (String c "")) (list_ascii_of_string s))
  | VBytes b => Ok (map (fun c => VInt (Z.of_N (N_of_ascii c))) (list_ascii_of_string b))
  | VNone | VBool _ | VInt _ => Raise TypeError
  end.

Definition hashable (v : value) : bool :=
  match v with
  | VList _ | VSet _ | VDict _ => false
  | _ => true
  end.

(** [set(obj)].  A Python set is carried by the list of its elements and
    read through membership only ([listset]). *)
Definition set_of (obj : value) : Result (listset value) :=
  elems <-? iterate obj ;;
  if forallb hashable elems then Ok (Listset elems) else Raise TypeError.

(** ** Text helpers *)

Definition is_ascii_char (c : ascii) : bool := (N_of_ascii c <? 128)%N.

Definition is_ascii (s : string) : bool :=
  forallb is_ascii_char (list_ascii_of_string s).

(** [s.encode("ascii")] *)
Definition encode_ascii (s : string) : Result bytes :=
  if is_ascii s then Ok s else Raise UnicodeError.

(** [str(b, "ascii")] *)
Definition decode_ascii (b : bytes) : Result string :=
  if is_ascii b then Ok b else Raise UnicodeError.

Definition lower_char (c : ascii) : ascii :=
  let n := N_of_ascii c in
  if ((65 <=? n) && (n <=? 90))%N then ascii_of_N (n + 32) else c.

(** [name.lower()] *)
Fixpoint lower (s : string) : string :=
  match s with
  | EmptyString => EmptyString
  | String c rest => String (lower_char c) (lower rest)
  end.

(** [str(n)] for an integer. *)
Definition str_of_int (n : Z) : string := NilZero.string_of_int (Z.to_int n).

(** [s.startswith(p)] *)
Definition startswith (s p : string) : bool := String.prefix p s.

(** The bytes [bytes.strip()] removes: space, tab, LF, VT, FF, CR. *)
Definition is_whitespace (c : ascii) : bool :=
  let n := N_of_ascii c in ((n =? 32) || ((9 <=? n) && (n <=? 13)))%N.

Fixpoint lstrip (s : string) : string :=
  match s with
  | EmptyString => EmptyString
  | String c rest => if is_whitespace c then lstrip rest else s
  end.

Fixpoint rstrip (s : string) : string :=
  match s with
  | EmptyString => EmptyString
  | String c rest =>
      match rstrip rest with
      | EmptyString => if is_whitespace c then EmptyString else String c EmptyString
      | kept => String c kept
      end
  end.

Definition strip (s : string) : string := rstrip (lstrip s).

(** ** [base64.b64encode] *)

Definition b64_alphabet : string :=
  "ABCDEFGHIJKLMNOPQRSTUVWXYZabcdefghijklmnopqrstuvwxyz0123456789+/".

Definition b64_char (n : N) : ascii :=
  match String.get (N.to_nat n) b64_alphabet with
  | Some c => c
  | None => "="%char
  end.

Fixpoint b64encode (s : bytes) : bytes :=
  match s with
  | EmptyString => EmptyString
  | String a EmptyString =>
      let x := N_of_ascii a in
      String (b64_char (x / 4)) (String (b64_char (x mod 4 * 16)) "==")
  | String a (String b EmptyString) =>
      let x := N_of_ascii a in
      let y := N_of_ascii b in
      String (b64_char (x / 4))
        (String (b64_char (x mod 4 * 16 + y / 16))
           (String (b64_char (y mod 16 * 4)) "="))
  | String a (String b (String c rest)) =>
      let x := N_of_ascii a in
      let y := N_of_ascii b in
      let z := N_of_ascii c in
      String (b64_char (x / 4))
        (String (b64_char (x mod 4 * 16 + y / 16))
           (String (b64_char (y mod 16 * 4 + z / 64))
              (String (b64_char (z mod 64)) (b64encode rest))))
  end%N.

(** ** [twisted.web.http_headers.Headers]

    Raw headers keyed by the lower-cased header name, each name holding
    the list of its values in the order they were added. *)

Abbreviation Headers := (gmap string (list string)).

Definition setRawHeaders (name : string) (values : list string) (h : Headers) : Headers :=
  <[lower name := values]> h.

Definition getRawHeaders (name : string) (h : Headers) : option (list string) :=
  h !! lower name.

Definition addRawHeader (name : string) (v : string) (h : Headers) : Headers :=
  <[lower name := (default [] (h !! lower name) ++ [v])%list]> h.

(** [Headers(rawHeaders)] *)
Definition Headers_new (rawHeaders : list (string * list string)) : Headers :=
  fold_left (fun h nv => setRawHeaders (fst nv) (snd nv) h) rawHeaders ∅.

(** ** [werkzeug.datastructures.Range] and [ContentRange] *)

Record Range := { range_units : string; ranges : list (Z * Z) }.

(** [Range(units, ranges)]: every range must start at or after 0 and end
    after its start. *)
Definition Range_new (units : string) (rs : list (Z * Z)) : Result Range :=
  if forallb (fun r => negb ((fst r <? 0) || (snd r <=? fst r))) rs
  then Ok {| range_units := units; ranges := rs |}
  else Raise ValueError.

Fixpoint join (sep : string) (parts : list string) : string :=
  match parts with
  | [] => ""
  | [p] => p
  | p :: rest => p ++ sep ++ join sep rest
  end.

(** [Range.to_header()]: the end is exclusive in the object and inclusive
    on the wire. *)
Definition Range_to_header (r : Range) : string :=
  range_units r ++ "=" ++
  join "," (map (fun be => str_of_int (fst be) ++ "-" ++ str_of_int (snd be - 1)) (ranges r)).

Record ContentRange := { cr_units : string; cr_start : Z; cr_stop : Z }.

(** [is_byte_range_valid(start, stop, None)] *)
Definition is_byte_range_valid (start stop : Z) : bool :=
  (0 <=? start) && (start <? stop).

(** [ContentRange(units, start, stop)] with the total length left out. *)
Definition ContentRange_new (units : string) (start stop : Z) : Result ContentRange :=
  _ <-? assert (is_byte_range_valid start stop) ;;
  Ok {| cr_units := units; cr_start := start; cr_stop := stop |}.

Definition ContentRange_to_header (c : ContentRange) : string :=
  cr_units c ++ " " ++ str_of_int (cr_start c) ++ "-" ++ str_of_int (cr_stop c - 1) ++ "/*".

(** ** [collections_extended.RangeMap]

    The map is a list of breakpoints in ascending key order: a breakpoint
    [(k, v)] gives [v] to every key from [k] up to the next breakpoint,
    and [None] marks a stretch that is not set.  Keys are integers here,
    as the wire format has them. *)

Module RangeMap.
Section RangeMap.
Context {V : Type}.

Definition t : Type := list (Z * option V).

Definition empty : t := [].

Fixpoint get_from (cur : option V) (m : t) (k : Z) : option V :=
  match m with
  | [] => cur
  | (x, v) :: rest => if x <=? k then get_from v rest k else cur
  end.

(** [m.get(k)] *)
Definition get (m : t) (k : Z) : option V := get_from None m k.

Definition below (bound : Z) (m : t) : t :=
  List.filter (fun p => fst p <? bound) m.

Definition above (bound : Z) (m : t) : t :=
  List.filter (fun p => bound <? fst p) m.

(** [m.set(value, start, stop)]: [start, stop) now maps to [value]; what
    held from [stop] on still holds. *)
Definition set (v : V) (start stop : Z) (m : t) : Result t :=
  if stop <=? start then Raise ValueError
  else Ok (below start m ++ (start, Some v) :: (stop, get m stop) :: above stop m)%list.

(** Class invariant: keys strictly ascending. *)
Fixpoint wf (m : t) : Prop :=
  match m with
  | [] => True
  | (x, _) :: rest => Forall (fun p => x < fst p) rest /\ wf rest
  end.
End RangeMap.
Arguments t V : clear implicits.
End RangeMap.

(** [m.set(value, start, stop)] with the bounds as decoded objects.  The
    wire format has integers there; bounds of another type are outside
    what is modelled and end the call with [UnsupportedKey]. *)
Definition RangeMap_set {V} (v : V) (start stop : value) (m : RangeMap.t V)
  : Result (RangeMap.t V) :=
  match start, stop with
  | VInt b, VInt e => RangeMap.set v b e m
  | _, _ => Raise UnsupportedKey
  end.

(** ** [hyperlink.DecodedURL] *)

Record DecodedURL := {
  scheme : string;
  user : string;
  host : string;
  port : option Z;
  path : list string;
  fragment : string
}.

(** [url.to_text()] and [url.click(href)] of the URL library. *)
Class Hyperlink := {
  to_text : DecodedURL -> string;
  click : DecodedURL -> string -> DecodedURL
}.

(** [cbor2.loads] ([None]: the bytes are not a CBOR item) and
    [cbor2.dumps]. *)
Class Cbor2 := {
  loads : bytes -> option value;
  dumps : value -> bytes
}.

(** The three kinds of secret of [allmydata.storage.http_common]. *)
Inductive Secrets : Type := LEASE_RENEW | LEASE_CANCEL | UPLOAD.

(** What [http_client] imports from [allmydata.storage.http_common]: the
    value of the [Authorization] header for a swiss number, and the text
    each member of the [Secrets] enumeration carries. *)
Class HttpCommon := {
  swissnum_auth_header : bytes -> bytes;
  Secrets_value : Secrets -> string
}.

(** [allmydata.storage.common.si_b2a]: the storage index in its textual
    form. *)
Class StorageCommon := {
  si_b2a : bytes -> bytes
}.

(** ** Requests, responses and the world *)

Record Request := {
  method : string;
  url : DecodedURL;
  headers : Headers;
  data : option bytes
}.

(** A response: its status line, and what reading its body gives. *)
Record Response := {
  code : Z;
  phrase : bytes;
  content : Result bytes
}.

(** [treq]: the far end has a state of its own; it answers a request with
    a response or with a failure of the transport. *)
Class Treq := {
  Server : Type;
  handle : Request -> Server -> Result Response * Server
}.

(** The world a call runs in: the requests handed to [treq] so far, oldest
    first, and the state of the far end. *)
Record World `{Treq} := {
  sent : list Request;
  net : Server
}.

(** A call that may send requests and may raise. *)
Definition M `{Treq} (A : Type) : Type := World -> Result A * World.

Definition ret `{Treq} {A} (a : A) : M A := fun w => (Ok a, w).

Definition raise `{Treq} {A} (e : exn) : M A := fun w => (Raise e, w).

Definition lift `{Treq} {A} (r : Result A) : M A := fun w => (r, w).

Definition bind `{Treq} {A B} (m : M A) (k : A -> M B) : M B :=
  fun w =>
    match m w with
    | (Ok a, w') => k a w'
    | (Raise e, w') => (Raise e, w')
    end.

Notation "x <- e ;; k" := (bind e (fun x => k))
  (at level 100, e at next level, right associativity).

(** [treq.request(method, url, headers=..., data=...)] *)
Definition treq_request `{Treq} (r : Request) : M Response :=
  fun w =>
    let (answer, net') := handle r (net w) in
    (answer, {| sent := (sent w ++ [r])%list; net := net' |}).

(** [len(data)] *)
Definition len (b : bytes) : Z := Z.of_nat (String.length b).

(** ** [http_client.py] *)

Record ImmutableCreateResult := {
  already_have : value;
  allocated : value
}.

(** The fields of a [StorageClient]; its [_treq] is the transport of the
    world the client runs in. *)
Record StorageClient := {
  _base_url : DecodedURL;
  _swissnum : bytes
}.

Record UploadProgress := {
  finished : bool;
  required : RangeMap.t bool
}.

Section Client.
Context `{!Hyperlink, !Cbor2, !HttpCommon, !StorageCommon, !Treq}.

Definition _encode_si (si : bytes) : Result string :=
  decode_ascii (si_b2a si).

Definition _decode_cbor (response : Response) : M value :=
  if (199 <? code response) && (code response <? 300) then
    body <- lift (content response) ;;
    match loads body with
    | Some v => ret v
    | None => raise CBORDecodeError
    end
  else raise (ClientException (code response) (Some (phrase response))).

(** [StorageClient.__init__] *)
Definition StorageClient__init__ (url : DecodedURL) (swissnum : bytes)
  : Result StorageClient :=
  _ <-? assert (startswith (to_text url) "https://") ;;
  Ok {| _base_url := url; _swissnum := swissnum |}.

(** [StorageClient.from_furl]: the body ends after the two encodings, so
    the call returns [None]. *)
Definition from_furl (furl : DecodedURL) : Result (option StorageClient) :=
  _ <-? assert (String.eqb (fragment furl) "v=1") ;;
  _ <-? assert (String.eqb (scheme furl) "pb") ;;
  swissnum <-? (match path furl with
                | first :: _ => encode_ascii first
                | [] => Raise IndexError
                end) ;;
  certificate_hash <-? encode_ascii (user furl) ;;
  Ok None.

Definition _url (self : StorageClient) (path : string) : DecodedURL :=
  click (_base_url self) path.

Definition _get_headers (self : StorageClient) (headers : option Headers) : Headers :=
  let headers := match headers with
                 | None => Headers_new []
                 | Some h => h
                 end in
  addRawHeader "Authorization" (swissnum_auth_header (_swissnum self)) headers.

(** The [for secret, value in [...]] loop of [_request]. *)
Fixpoint _request_secrets (pairs : list (Secrets * option bytes)) (headers : Headers)
  : Result Headers :=
  match pairs with
  | [] => Ok headers
  | (_, None) :: rest => _request_secrets rest headers
  | (secret, Some v) :: rest =>
      tag <-? encode_ascii (Secrets_value secret) ;;
      _request_secrets rest
        (addRawHeader "X-Tahoe-Authorization" (tag ++ " " ++ strip (b64encode v)) headers)
  end.

Definition _request (self : StorageClient) (method : string) (url : DecodedURL)
    (lease_renew_secret lease_cancel_secret upload_secret : option bytes)
    (headers : option Headers) (data : option bytes) : M Response :=
  let headers := _get_headers self headers in
  headers <- lift (_request_secrets
                     [(LEASE_RENEW, lease_renew_secret);
                      (LEASE_CANCEL, lease_cancel_secret);
                      (UPLOAD, upload_secret)] headers) ;;
  treq_request {| method := method; url := url; headers := headers; data := data |}.

Definition get_version (self : StorageClient) : M value :=
  let url := _url self "/v1/version" in
  response <- _request self "GET" url None None None None None ;;
  decoded_response <- _decode_cbor response ;;
  ret decoded_response.

(** [StorageClientImmutables]: its only field is the client. *)

Definition create (self : StorageClient) (storage_index : bytes)
    (share_numbers : list Z) (allocated_size : Z)
    (upload_secret lease_renew_secret lease_cancel_secret : bytes)
  : M ImmutableCreateResult :=
  si <- lift (_encode_si storage_index) ;;
  let url := _url self ("/v1/immutable/" ++ si) in
  let message := dumps (VDict [(VText "share-numbers", VSet (map VInt share_numbers));
                               (VText "allocated-size", VInt allocated_size)]) in
  response <- _request self "POST" url
                (Some lease_renew_secret) (Some lease_cancel_secret) (Some upload_secret)
                (Some (Headers_new [("content-type", ["application/cbor"])]))
                (Some message) ;;
  decoded_response <- _decode_cbor response ;;
  have <- lift (getitem decoded_response "already-have") ;;
  alloc <- lift (getitem decoded_response "allocated") ;;
  ret {| already_have := have; allocated := alloc |}.

(** The [for chunk in body["required"]] loop of [write_share_chunk]. *)
Fixpoint set_required (chunks : list value) (remaining : RangeMap.t bool)
  : Result (RangeMap.t bool) :=
  match chunks with
  | [] => Ok remaining
  | chunk :: rest =>
      b <-? getitem chunk "begin" ;;
      e <-? getitem chunk "end" ;;
      remaining <-? RangeMap_set true b e remaining ;;
      set_required rest remaining
  end.

Definition write_share_chunk (self : StorageClient) (storage_index : bytes)
    (share_number : Z) (upload_secret : bytes) (offset : Z) (data : bytes)
  : M UploadProgress :=
  si <- lift (_encode_si storage_index) ;;
  let url := _url self ("/v1/immutable/" ++ si ++ "/" ++ str_of_int share_number) in
  content_range <- lift (ContentRange_new "bytes" offset (offset + len data)) ;;
  response <- _request self "PATCH" url None None (Some upload_secret)
                (Some (Headers_new
                         [("content-range", [ContentRange_to_header content_range])]))
                (Some data) ;;
  finished <- (if code response =? 200 then ret false
               else if code response =? 201 then ret true
               else raise (ClientException (code response) None)) ;;
  body <- _decode_cbor response ;;
  required <- lift (getitem body "required") ;;
  chunks <- lift (iterate required) ;;
  remaining <- lift (set_required chunks RangeMap.empty) ;;
  ret {| finished := finished; required := remaining |}.

Definition read_share_chunk (self : StorageClient) (storage_index : bytes)
    (share_number offset length : Z) : M bytes :=
  si <- lift (_encode_si storage_index) ;;
  let url := _url self ("/v1/immutable/" ++ si ++ "/" ++ str_of_int share_number) in
  range <- lift (Range_new "bytes" [(offset, offset + length)]) ;;
  response <- _request self "GET" url None None None
                (Some (Headers_new [("range", [Range_to_header range])])) None ;;
  if code response =? 206 then
    body <- lift (content response) ;;
    ret body
  else raise (ClientException (code response) None).

Definition list_shares (self : StorageClient) (storage_index : bytes)
  : M (listset value) :=
  si <- lift (_encode_si storage_index) ;;
  let url := _url self ("/v1/immutable/" ++ si ++ "/shares") in
  response <- _request self "GET" url None None None None None ;;
  if code response =? 200 then
    body <- _decode_cbor response ;;
    lift (set_of body)
  else raise (ClientException (code response) None).
End Client.

(** ** Stand-ins for the imported libraries

    Concrete instances on which the client can be run: the text of a
    URL, a codec that knows a handful of bodies, the header values of
    [http_common], base-32 storage indexes, and a transport that plays
    back a script of answers (as [treq.testing.StubTreq] does in tests). *)

Module Stub.
Fixpoint split_on (sep : ascii) (s : string) : list string :=
  match s with
  | EmptyString => [EmptyString]
  | String c rest =>
      if Ascii.eqb c sep then EmptyString :: split_on sep rest
      else match split_on sep rest with
           | first :: others => String c first :: others
           | [] => [String c EmptyString]
           end
  end.

#[export] Instance hyperlink : Hyperlink := {|
  to_text u :=
    scheme u ++ "://" ++ (if String.eqb (user u) "" then "" else user u ++ "@") ++ host u
    ++ (match port u with Some p => ":" ++ str_of_int p | None => "" end)
    ++ "/" ++ join "/" (path u)
    ++ (if String.eqb (fragment u) "" then "" else "#" ++ fragment u);
  click u href :=
    {| scheme := scheme u; user := user u; host := host u; port := port u;
       path := tail (split_on "/" href); fragment := "" |}
|}.

Definition chunk (b e : Z) : value :=
  VDict [(VText "begin", VInt b); (VText "end", VInt e)].

#[export] Instance cbor2 : Cbor2 := {|
  loads b :=
    if String.eqb b "required=" then
      Some (VDict [(VText "required", VList [])])
    else if String.eqb b "required=0-50" then
      Some (VDict [(VText "required", VList [chunk 0 50])])
    else if String.eqb b "required=0-10,40-50" then
      Some (VDict [(VText "required", VList [chunk 0 10; chunk 40 50])])
    else if String.eqb b "already-have=;allocated=0,1,2" then
      Some (VDict [(VText "already-have", VSet []);
                   (VText "allocated", VSet [VInt 0; VInt 1; VInt 2])])
    else if String.eqb b "already-have=0,1,2;allocated=" then
      Some (VDict [(VText "already-have", VSet [VInt 0; VInt 1; VInt 2]);
                   (VText "allocated", VSet [])])
    else if String.eqb b "0,2" then
      Some (VList [VInt 0; VInt 2])
    else None;
  dumps v := "(cbor)"
|}.

#[export] Instance http_common : HttpCommon := {|
  swissnum_auth_header swissnum := "Tahoe-LAFS " ++ strip (b64encode swissnum);
  Secrets_value secret :=
    match secret with
    | LEASE_RENEW => "lease-renew-secret"
    | LEASE_CANCEL => "lease-cancel-secret"
    | UPLOAD => "upload-secret"
    end
|}.

Definition b32_alphabet : string := "abcdefghijklmnopqrstuvwxyz234567".

Definition b32_char (bits : list bool) : ascii :=
  let n := fold_left (fun acc (b : bool) => 2 * acc + (if b then 1 else 0))%nat bits 0%nat in
  match String.get n b32_alphabet with
  | Some c => c
  | None => "="%char
  end.

Definition byte_bits (c : ascii) : list bool :=
  match c with
  | Ascii b0 b1 b2 b3 b4 b5 b6 b7 => [b7; b6; b5; b4; b3; b2; b1; b0]
  end.

Fixpoint b32_groups (bits : list bool) : string :=
  match bits with
  | [] => EmptyString
  | b1 :: b2 :: b3 :: b4 :: b5 :: rest =>
      String (b32_char [b1; b2; b3; b4; b5]) (b32_groups rest)
  | [b1; b2; b3; b4] => String (b32_char [b1; b2; b3; b4; false]) EmptyString
  | [b1; b2; b3] => String (b32_char [b1; b2; b3; false; false]) EmptyString
  | [b1; b2] => String (b32_char [b1; b2; false; false; false]) EmptyString
  | [b1] => String (b32_char [b1; false; false; false; false]) EmptyString
  end.

Definition b2a (b : bytes) : bytes :=
  b32_groups (concat (map byte_bits (list_ascii_of_string b))).

#[export] Instance storage_common : StorageCommon := {| si_b2a := b2a |}.

(** The far end is the script of the answers still to give; once the
    script has run out the connection is lost. *)
#[export] Instance treq : Treq := {|
  Server := list (Result Response);
  handle _ script :=
    match script with
    | answer :: rest => (answer, rest)
    | [] => (Raise (TransportFailure "connection lost"), [])
    end
|}.

Definition world (script : list (Result Response)) : World :=
  {| sent := []; net := script |}.

Definition answer (status : Z) (body : bytes) : Result Response :=
  Ok {| code := status; phrase := ""; content := Ok body |}.

Definition base_url : DecodedURL :=
  {| scheme := "https"; user := ""; host := "storage.example"; port := Some 8443;
     path := []; fragment := "" |}.

Definition client : StorageClient :=
  {| _base_url := base_url; _swissnum := "swissnum" |}.
(** A stand-in for the hash of the peer permutation. *)
Definition score (key peerid : bytes) : Z :=
  fold_left (fun acc c => (acc * 31 + Z.of_N (N_of_ascii c)) mod 7)
    (list_ascii_of_string (key ++ peerid)) 0.
End Stub.

(** ** The peer permutation *)

Module PeerSelector.
Section PeerSelector.
(** The hash that combines a key with a peer id into a score. *)
Variable score : bytes -> bytes -> Z.

(** A client, as far as the permutation goes: where it lives, and the
    peer ids of its introducer's [connections] dict in the order they
    were inserted. *)
Record Client := {
  basedir : string;
  connections : list bytes
}.

(** The order of the [(permuted, peerid)] pairs: by score, then by the
    bytes of the peer id. *)
Definition pair_le (a b : Z * bytes) : Prop :=
  fst a < fst b \/ (fst a = fst b /\ String.le (snd a) (snd b)).

#[local] Instance pair_le_dec : RelDecision pair_le.
Proof. intros a b. unfold pair_le. apply _. Defined.

(** Modelled from the spec: [Client.get_permuted_peers] of
    [allmydata/client.py], which the test calls and which is not among
    the sources.  Each candidate gets the score of the key and its peer
    id; the candidates are sorted by ascending score, equal scores by
    the raw bytes of the peer id. *)
Definition get_permuted_peers (c : Client) (key : bytes) : list (Z * bytes) :=
  merge_sort pair_le (map (fun peerid => (score key peerid, peerid)) (connections c)).

(** [permute] of [test_client.py]. *)
Definition permute (c : Client) (key : bytes) : list bytes :=
  map snd (get_permuted_peers c key).
End PeerSelector.
End PeerSelector.

(** ** What a request is expected to carry *)

(** [headers.addRawHeader(name, v)] for each [v] in turn. *)
Definition add_all (name : string) (vs : list string) (h : Headers) : Headers :=
  fold_left (fun h v => addRawHeader name v h) vs h.

Section Expected.
Context `{!Hyperlink, !HttpCommon}.

(** The header value of one secret: the tag of its role, a space, the
    secret in base64. *)
Definition secret_header (role : Secrets) (v : bytes) : string :=
  Secrets_value role ++ " " ++ strip (b64encode v).

Definition supplied (role : Secrets) (secret : option bytes) : list string :=
  match secret with
  | Some v => [secret_header role v]
  | None => []
  end.

Definition secret_headers (r c u : option bytes) : list string :=
  (supplied LEASE_RENEW r ++ supplied LEASE_CANCEL c ++ supplied UPLOAD u)%list.

(** The request [_request] hands to [treq.request]. *)
Definition issued (self : StorageClient) (meth : string) (u : DecodedURL)
    (r c up : option bytes) (hdrs : option Headers) (body : option bytes) : Request :=
  {| method := meth; url := u;
     headers := add_all "X-Tahoe-Authorization" (secret_headers r c up)
                  (_get_headers self hdrs);
     data := body |}.
End Expected.

Section ExpectedRequests.
Context `{!Hyperlink, !Cbor2, !HttpCommon, !StorageCommon, !Treq}.

(** The request of [list_shares] for a storage index whose text is
    [enc]. *)
Definition list_shares_request (self : StorageClient) (enc : string) : Request :=
  {| method := "GET";
     url := _url self ("/v1/immutable/" ++ enc ++ "/shares");
     headers := {[ "authorization" := [swissnum_auth_header (_swissnum self)] ]};
     data := None |}.
(** What a response decodes to: the outcome of [_decode_cbor]. *)
Definition decoded_body (response : Response) : Result value :=
  if (199 <? code response) && (code response <? 300) then
    body <-? content response ;;
    match loads body with
    | Some v => Ok v
    | None => Raise CBORDecodeError
    end
  else Raise (ClientException (code response) (Some (phrase response))).

(** The request of [create]. *)
Definition create_request (self : StorageClient) (enc : string) (share_numbers : list Z)
    (allocated_size : Z) (upload_secret lease_renew_secret lease_cancel_secret : bytes)
  : Request :=
  {| method := "POST";
     url := _url self ("/v1/immutable/" ++ enc);
     headers := {[ "x-tahoe-authorization" :=
                     [secret_header LEASE_RENEW lease_renew_secret;
                      secret_header LEASE_CANCEL lease_cancel_secret;
                      secret_header UPLOAD upload_secret];
                   "authorization" := [swissnum_auth_header (_swissnum self)];
                   "content-type" := ["application/cbor"] ]};
     data := Some (dumps (VDict [(VText "share-numbers", VSet (map VInt share_numbers));
                                 (VText "allocated-size", VInt allocated_size)])) |}.

(** The request of [write_share_chunk]: the bytes [offset, offset +
    len data) of the share. *)
Definition write_share_chunk_request (self : StorageClient) (enc : string)
    (share_number : Z) (upload_secret : bytes) (offset : Z) (chunk : bytes) : Request :=
  {| method := "PATCH";
     url := _url self ("/v1/immutable/" ++ enc ++ "/" ++ str_of_int share_number);
     headers := {[ "x-tahoe-authorization" := [secret_header UPLOAD upload_secret];
                   "authorization" := [swissnum_auth_header (_swissnum self)];
                   "content-range" :=
                     ["bytes " ++ str_of_int offset ++ "-"
                      ++ str_of_int (offset + len chunk - 1) ++ "/*"] ]};
     data := Some chunk |}.

(** The request of [read_share_chunk]: the bytes [offset, offset +
    length) of the share. *)
Definition read_share_chunk_request (self : StorageClient) (enc : string)
    (share_number offset length : Z) : Request :=
  {| method := "GET";
     url := _url self ("/v1/immutable/" ++ enc ++ "/" ++ str_of_int share_number);
     headers := {[ "authorization" := [swissnum_auth_header (_swissnum self)];
                   "range" :=
                     ["bytes=" ++ str_of_int offset ++ "-"
                      ++ str_of_int (offset + length - 1)] ]};
     data := None |}.

(** The range one entry of [required] names, when the entry is a map with
    integers under [begin] and [end]. *)
Definition chunk_range (chunk : value) : option (Z * Z) :=
  match getitem chunk "begin", getitem chunk "end" with
  | Ok (VInt b), Ok (VInt e) => Some (b, e)
  | _, _ => None
  end.

Fixpoint chunk_ranges (chunks : list value) : option (list (Z * Z)) :=
  match chunks with
  | [] => Some []
  | chunk :: rest =>
      match chunk_range chunk, chunk_ranges rest with
      | Some r, Some rs => Some (r :: rs)
      | _, _ => None
      end
  end.

(** [k] lies in one of the half-open ranges. *)
Definition covered (rs : list (Z * Z)) (k : Z) : bool :=
  existsb (fun r => (fst r <=? k) && (k <? snd r)) rs.
(** What [write_share_chunk] makes of the response to its request. *)
Definition progress_of (response : Response) : Result UploadProgress :=
  finished <-? (if code response =? 200 then Ok false
                else if code response =? 201 then Ok true
                else Raise (ClientException (code response) None)) ;;
  body <-? decoded_body response ;;
  required <-? getitem body "required" ;;
  chunks <-? iterate required ;;
  remaining <-? set_required chunks RangeMap.empty ;;
  Ok {| finished := finished; required := remaining |}.

(** What [create] makes of the response to its request. *)
Definition created_of (response : Response) : Result ImmutableCreateResult :=
  decoded_response <-? decoded_body response ;;
  have <-? getitem decoded_response "already-have" ;;
  alloc <-? getitem decoded_response "allocated" ;;
  Ok {| already_have := have; allocated := alloc |}.
(** What [read_share_chunk] makes of the response to its request. *)
Definition body_of (response : Response) : Result bytes :=
  if code response =? 206 then content response
  else Raise (ClientException (code response) None).

(** What [list_shares] makes of the response to its request. *)
Definition shares_of (response : Response) : Result (listset value) :=
  if code response =? 200 then
    body <-? decoded_body response ;;
    set_of body
  else Raise (ClientException (code response) None).

(** Send [req] and make [post] of the response. *)
Definition answered {A} (post : Response -> Result A) (req : Request) : M A :=
  response <- treq_request req ;;
  lift (post response).

(** The shape of every call of the client: it raises before anything is
    sent, or it sends one request, the same in every world, and makes
    [post] of the response. *)
Definition one_request {A} (call : M A) (post : Response -> Result A) : Prop :=
  (exists e, forall w, call w = (Raise e, w)) \/
  (exists req, forall w, call w = answered post req w).
End ExpectedRequests.

(** ** [allmydata/util/pid.py]

    The pid file lives in a file system that this process shares with
    others.  Python text is a list of code points here, since the file is
    decoded before it is split and parsed.  The codec, [int], [float] and
    the formatting of a float are those of the platform. *)

Module Pid.

Abbreviation text := (list N) (only parsing).

Definition text_of_string (s : string) : text :=
  map N_of_ascii (list_ascii_of_string s).

(** [str.isspace] for one code point. *)
Definition is_space (c : N) : bool :=
  ((9 <=? c) && (c <=? 13) || (28 <=? c) && (c <=? 32) || (c =? 133) || (c =? 160)
   || (c =? 5760) || (8192 <=? c) && (c <=? 8202) || (c =? 8232) || (c =? 8233)
   || (c =? 8239) || (c =? 8287) || (c =? 12288))%N.

Fixpoint lstrip (s : text) : text :=
  match s with
  | [] => []
  | c :: rest => if is_space c then lstrip rest else s
  end.

Fixpoint rstrip (s : text) : text :=
  match s with
  | [] => []
  | c :: rest =>
      match rstrip rest with
      | [] => if is_space c then [] else [c]
      | kept => c :: kept
      end
  end.

(** [s.strip()] *)
Definition strip (s : text) : text := rstrip (lstrip s).

Fixpoint split_from (word : text) (s : text) : list text :=
  match s with
  | [] => match word with [] => [] | _ => [word] end
  | c :: rest =>
      if is_space c then
        match word with
        | [] => split_from [] rest
        | _ => word :: split_from [] rest
        end
      else split_from (word ++ [c])%list rest
  end.

(** [s.split()]: the runs of characters between white space. *)
Definition split (s : text) : list text := split_from [] s.

(** Text without white space. *)
Definition no_space (t : text) : Prop := Forall (fun c => is_space c = false) t.

Class Builtins := {
  float : Type;
  (** [b.decode("utf8")]; [None]: the bytes are not UTF-8 *)
  decode_utf8 : bytes -> option text;
  encode_utf8 : text -> bytes;
  (** [int(s)] and [float(s)]; [None]: [ValueError] *)
  int_of_str : text -> option Z;
  float_of_str : text -> option float;
  (** [str(x)] for a float *)
  str_of_float : float -> text
}.

(** [twisted.python.filepath.FilePath]: a directory and a name in it. *)
Record FilePath := { dirname : string; basename : string }.

Definition path (p : FilePath) : string := dirname p ++ "/" ++ basename p.

Definition sibling (p : FilePath) (name : string) : FilePath :=
  {| dirname := dirname p; basename := name |}.

(** The file system as this process finds it: the regular files (the
    lock files among them), the paths of the lock files that other
    processes hold and keep holding, what was printed, and the pid of
    this process. *)
Record OS := {
  files : gmap string bytes;
  locked : gset string;
  stdout : list string;
  getpid : Z
}.

Inductive error : Type :=
| ProcessInTheWay (message : string)
| InvalidPidFile (pidfile : FilePath)
| CannotRemovePidFile (pidfile : FilePath) (cause : error)
| NoSuchProcess (pid : Z)
| Timeout
| UnicodeDecodeError
| FileNotFoundError (name : string)
| OtherError (name : string).

Inductive Outcome (A : Type) : Type :=
| Done (a : A)
| Raised (e : error).
Arguments Done {A} a.
Arguments Raised {A} e.

Section Pid.
Context `{!Builtins}.

(** [psutil.Process] *)
Record Process := { create_time : float }.

Definition _pidfile_to_lockpath (pidfile : FilePath) : FilePath :=
  sibling pidfile (basename pidfile ++ ".lock").

(** The [try] block that reads the two fields of the file:
    [pid, starttime = content.split()], [int(pid)], [float(starttime)];
    [None] where one of them raises [ValueError]. *)
Definition read_fields (content : text) : option (Z * float) :=
  match split content with
  | [pid; starttime] =>
      match int_of_str pid with
      | Some pid =>
          match float_of_str starttime with
          | Some starttime => Some (pid, starttime)
          | None => None
          end
      | None => None
      end
  | _ => None
  end.

(** ["{} {}\n".format(pid, starttime)] *)
Definition record (pid : Z) (starttime : float) : text :=
  (text_of_string (str_of_int pid) ++ [32%N] ++ str_of_float starttime ++ [10%N])%list.

Definition print (line : string) (os : OS) : OS :=
  {| files := files os; locked := locked os; stdout := (stdout os ++ [line])%list;
     getpid := getpid os |}.

(** [pidfile.remove()] on a file that is there *)
Definition remove (pidfile : FilePath) (os : OS) : OS :=
  {| files := delete (path pidfile) (files os); locked := locked os; stdout := stdout os;
     getpid := getpid os |}.

(** [with pidfile.open("w") as f: f.write(content)] *)
Definition write (pidfile : FilePath) (content : bytes) (os : OS) : OS :=
  {| files := <[path pidfile := content]> (files os); locked := locked os;
     stdout := stdout os; getpid := getpid os |}.

(** [FileLock(path)] on entering the [with] block, as [filelock] does it
    on a POSIX system: every attempt opens the lock file for writing,
    creating it where there is none and truncating it where there is
    one, and only then asks for the lock; leaving the block gives the
    lock back and leaves the file where it is.  So the lock file is there
    and empty from the first attempt on, whether or not the lock was
    had. *)
Definition open_lock (lock_path : FilePath) (os : OS) : OS :=
  {| files := <[path lock_path := EmptyString]> (files os); locked := locked os;
     stdout := stdout os; getpid := getpid os |}.

(** The part of [check_pid_process] under [if pidfile.exists()]. *)
Definition check_existing (pidfile : FilePath) (find_process : Z -> Outcome Process)
    (raw : bytes) (os : OS) : Outcome unit * OS :=
  match decode_utf8 raw with
  | None => (Raised UnicodeDecodeError, os)
  | Some decoded =>
      let content := strip decoded in
      match read_fields content with
      | None => (Raised (InvalidPidFile pidfile), os)
      | Some (pid, starttime) =>
          match find_process pid with
          | Done _ =>
              (Raised (ProcessInTheWay
                         ("A process is already running as PID " ++ str_of_int pid)), os)
          | Raised (NoSuchProcess _) =>
              (Done tt,
               remove pidfile
                 (print ("'" ++ path pidfile ++ "' refers to " ++ str_of_int pid
                         ++ " that isn't running") os))
          | Raised e => (Raised e, os)
          end
      end
  end.

(** The body of the [with FileLock(...)] block of [check_pid_process]. *)
Definition check_locked (pidfile : FilePath) (find_process : Z -> Outcome Process)
    (os : OS) : Outcome unit * OS :=
  let checked :=
    match files os !! path pidfile with
    | Some raw => check_existing pidfile find_process raw os
    | None => (Done tt, os)
    end in
  match checked with
  | (Done _, os) =>
      let pid := getpid os in
      match find_process pid with
      | Done process =>
          let starttime := create_time process in
          (Done tt, write pidfile (encode_utf8 (record pid starttime)) os)
      | Raised e => (Raised e, os)
      end
  | (Raised e, os) => (Raised e, os)
  end.

(** [check_pid_process(pidfile, find_process)].  A lock that another
    process holds for the two seconds of the timeout raises [Timeout]. *)
Definition check_pid_process (pidfile : FilePath) (find_process : Z -> Outcome Process)
    (os : OS) : Outcome unit * OS :=
  let lock_path := _pidfile_to_lockpath pidfile in
  let os := open_lock lock_path os in
  let attempt :=
    if decide (path lock_path ∈ locked os) then (Raised Timeout, os)
    else check_locked pidfile find_process os in
  match attempt with
  | (Raised Timeout, os) =>
      (Raised (ProcessInTheWay ("Another process is still locking " ++ path pidfile)), os)
  | other => other
  end.

(** [cleanup_pidfile(pidfile)].  The lock is taken without a timeout:
    while another process holds it the call waits, which is [None]. *)
Definition cleanup_pidfile (pidfile : FilePath) (os : OS) : option (Outcome unit * OS) :=
  let lock_path := _pidfile_to_lockpath pidfile in
  let os := open_lock lock_path os in
  if decide (path lock_path ∈ locked os) then None
  else
    Some match files os !! path pidfile with
         | Some _ => (Done tt, remove pidfile os)
         | None =>
             (Raised (CannotRemovePidFile pidfile (FileNotFoundError (path pidfile))), os)
         end.
End Pid.
End Pid.

(** ** Stand-ins for the platform of the pid file *)

Module PidStub.
Definition string_of_text (t : list N) : string :=
  string_of_list_ascii (map ascii_of_N t).

Definition read_int (t : list N) : option Z :=
  match t with
  | [] => None
  | _ => option_map Z.of_int (NilZero.int_of_string (string_of_text t))
  end.

(** Floats are whole numbers of seconds here, printed as ["<n>.0"]. *)
#[export] Instance builtins : Pid.Builtins := {|
  Pid.float := Z;
  Pid.decode_utf8 b := if is_ascii b then Some (Pid.text_of_string b) else None;
  Pid.encode_utf8 t := string_of_text t;
  Pid.int_of_str := read_int;
  Pid.float_of_str t :=
    match rev t with
    | 48%N :: 46%N :: whole => read_int (rev whole)
    | _ => None
    end;
  Pid.str_of_float z := Pid.text_of_string (str_of_int z ++ ".0")
|}.

Definition pidfile : Pid.FilePath :=
  {| Pid.dirname := "/var/run"; Pid.basename := "tahoe.pid" |}.

Definition seconds (z : Z) : Pid.float := z.

Definition started (z : Z) : Pid.Process := {| Pid.create_time := seconds z |}.

(** Process 4242 is this one, process 1 runs as well, nothing else does. *)
Definition find_process (pid : Z) : Pid.Outcome Pid.Process :=
  if pid =? 4242 then Pid.Done (started 1700000000)
  else if pid =? 1 then Pid.Done (started 5)
  else Pid.Raised (Pid.NoSuchProcess pid).

(** A process table in which nothing runs, not even this process. *)
Definition nobody (pid : Z) : Pid.Outcome Pid.Process :=
  Pid.Raised (Pid.NoSuchProcess pid).

(** A file system with at most the pid file, no lock held, nothing
    printed; this process is 4242. *)
Definition os_with (contents : option bytes) : Pid.OS :=
  {| Pid.files := match contents with
                  | Some raw => {[ Pid.path pidfile := raw ]}
                  | None => ∅
                  end;
     Pid.locked := ∅; Pid.stdout := []; Pid.getpid := 4242 |}.

Definition newline : string := String "010"%char EmptyString.
End PidStub.

Section ExpectedVersionRequest.
Context `{!Hyperlink, !Cbor2, !HttpCommon, !StorageCommon, !Treq}.

(** The request of [get_version]. *)
Definition get_version_request (self : StorageClient) : Request :=
  {| method := "GET";
     url := _url self "/v1/version";
     headers := {[ "authorization" := [swissnum_auth_header (_swissnum self)] ]};
     data := None |}.

(** A call that never sends twice: either it raises before anything is
    sent and leaves the world as it was, or it hands one request, the
    same in every world, to [treq], the far end takes the one step of
    answering it, and a failure of the transport comes back as it is. *)
Definition sends_at_most_once {A} (call : M A) : Prop :=
  (exists e, forall w, call w = (Raise e, w)) \/
  (exists req, forall w,
      snd (call w)
      = {| sent := (sent w ++ [req])%list; net := snd (handle req (net w)) |} /\
      forall e, fst (handle req (net w)) = Raise e -> fst (call w) = Raise e).
End ExpectedVersionRequest.

(** * Properties *)

(** ** The text helpers on known values *)

Example b64encode_Man : b64encode "Man" = "TWFu".
Proof. reflexivity. Qed.
Example b64encode_Ma : b64encode "Ma" = "TWE=".
Proof. reflexivity. Qed.
Example b64encode_M : b64encode "M" = "TQ==".
Proof. reflexivity. Qed.
Example b64encode_hello : b64encode "hello world" = "aGVsbG8gd29ybGQ=".
Proof. reflexivity. Qed.
Example strip_example : strip "  ab c
" = "ab c".
Proof. reflexivity. Qed.
Example str_of_int_examples :
  str_of_int 0 = "0" /\ str_of_int 17 = "17" /\ str_of_int (-3) = "-3".
Proof. repeat split. Qed.
Example lower_example : lower "X-Tahoe-Authorization" = "x-tahoe-authorization".
Proof. reflexivity. Qed.

(** ** The range map *)

Section RangeMapFacts.
Context {V : Type}.
Local Open Scope list_scope.
Implicit Types (m : RangeMap.t V) (cur : option V).

Lemma RangeMap_below_none x m b :
  Forall (fun p => x < fst p) m -> b <= x -> RangeMap.below b m = [].
Proof.
  induction 1 as [|p m Hp _ IH]; intros Hb; simpl; [reflexivity|].
  destruct (Z.ltb_spec (fst p) b); [lia | auto].
Qed.

Lemma RangeMap_above_all x m b :
  Forall (fun p => x < fst p) m -> b <= x -> RangeMap.above b m = m.
Proof.
  induction 1 as [|p m Hp _ IH]; intros Hb; simpl; [reflexivity|].
  destruct (Z.ltb_spec b (fst p)); [f_equal; auto | lia].
Qed.

Lemma RangeMap_get_from_below cur m start k x r :
  RangeMap.wf m -> k < start ->
  RangeMap.get_from cur (RangeMap.below start m ++ (start, x) :: r) k
  = RangeMap.get_from cur m k.
Proof.
  revert cur. induction m as [|[y v] m IH]; intros cur Hwf Hk; simpl.
  - destruct (Z.leb_spec start k); [lia | reflexivity].
  - destruct Hwf as [Hall Hwf]. destruct (Z.ltb_spec y start); simpl.
    + destruct (y <=? k); [apply IH; assumption | reflexivity].
    + rewrite (RangeMap_below_none y m start Hall) by lia. simpl.
      destruct (Z.leb_spec start k); [lia|].
      destruct (Z.leb_spec y k); [lia | reflexivity].
Qed.

Lemma RangeMap_get_from_prefix cur (l : RangeMap.t V) s x r k :
  Forall (fun p => fst p <= k) l -> s <= k ->
  RangeMap.get_from cur (l ++ (s, x) :: r) k = RangeMap.get_from x r k.
Proof.
  intros Hl Hs. revert cur. induction Hl as [|[y v] l Hy _ IH]; intros cur; simpl.
  - destruct (Z.leb_spec s k); [reflexivity | lia].
  - simpl in Hy. destruct (Z.leb_spec y k); [apply IH | lia].
Qed.

Lemma RangeMap_get_from_above cur m stop k :
  RangeMap.wf m -> stop <= k ->
  RangeMap.get_from (RangeMap.get_from cur m stop) (RangeMap.above stop m) k
  = RangeMap.get_from cur m k.
Proof.
  revert cur. induction m as [|[y v] m IH]; intros cur Hwf Hk; simpl; [reflexivity|].
  destruct Hwf as [Hall Hwf]. destruct (Z.leb_spec y stop).
  - destruct (Z.ltb_spec stop y); [lia|].
    destruct (Z.leb_spec y k); [apply IH; assumption | lia].
  - destruct (Z.ltb_spec stop y); [|lia].
    rewrite (RangeMap_above_all y m stop Hall) by lia. reflexivity.
Qed.

Lemma RangeMap_below_bound start m :
  Forall (fun p => fst p < start) (RangeMap.below start m).
Proof.
  induction m as [|p m IH]; simpl; [constructor|].
  destruct (Z.ltb_spec (fst p) start); [constructor|]; assumption.
Qed.

Lemma RangeMap_above_bound stop m :
  Forall (fun p => stop < fst p) (RangeMap.above stop m).
Proof.
  induction m as [|p m IH]; simpl; [constructor|].
  destruct (Z.ltb_spec stop (fst p)); [constructor|]; assumption.
Qed.

(** Reading after a write: the written range holds the new value, every
    other key what it held before. *)
Lemma RangeMap_get_set v start stop m m' k :
  RangeMap.wf m -> RangeMap.set v start stop m = Ok m' ->
  RangeMap.get m' k
  = if (start <=? k) && (k <? stop) then Some v else RangeMap.get m k.
Proof.
  unfold RangeMap.set, RangeMap.get. intros Hwf Hset.
  destruct (Z.leb_spec stop start) as [|Hlt]; [discriminate|].
  injection Hset as <-.
  destruct (Z.leb_spec start k) as [Hsk|Hsk]; simpl.
  - rewrite RangeMap_get_from_prefix; [| |assumption].
    + simpl. destruct (Z.leb_spec stop k); destruct (Z.ltb_spec k stop); try lia.
      * apply RangeMap_get_from_above; assumption.
      * reflexivity.
    + eapply Forall_impl; [apply RangeMap_below_bound|]. simpl. intros; lia.
  - apply RangeMap_get_from_below; assumption.
Qed.

Lemma RangeMap_wf_filter f m : RangeMap.wf m -> RangeMap.wf (List.filter f m).
Proof.
  induction m as [|[y v] m IH]; simpl; [trivial|]. intros [Hall Hwf].
  destruct (f (y, v)); simpl; [split|]; auto.
  rewrite Forall_forall in *. intros p Hp. apply Hall.
  apply list_elem_of_In in Hp. apply filter_In in Hp as [Hp _].
  apply list_elem_of_In. exact Hp.
Qed.

Lemma RangeMap_wf_app (l1 l2 : RangeMap.t V) bound :
  RangeMap.wf l1 -> RangeMap.wf l2 ->
  Forall (fun p => fst p < bound) l1 -> Forall (fun p => bound <= fst p) l2 ->
  RangeMap.wf (l1 ++ l2).
Proof.
  intros H1 H2 Hb1 Hb2. induction l1 as [|[y v] l1 IH]; simpl; [assumption|].
  destruct H1 as [Hall H1]. apply Forall_cons in Hb1 as [Hy Hb1]. simpl in Hy.
  split; [|auto]. apply Forall_app. split; [assumption|].
  eapply Forall_impl; [exact Hb2|]. simpl. intros; lia.
Qed.

Lemma RangeMap_wf_set v start stop m m' :
  RangeMap.wf m -> RangeMap.set v start stop m = Ok m' -> RangeMap.wf m'.
Proof.
  unfold RangeMap.set. intros Hwf Hset.
  destruct (Z.leb_spec stop start) as [|Hlt]; [discriminate|].
  injection Hset as <-.
  apply RangeMap_wf_app with (bound := start).
  - apply RangeMap_wf_filter, Hwf.
  - simpl. repeat split.
    + constructor; [simpl; lia|].
      eapply Forall_impl; [apply RangeMap_above_bound|]. simpl. intros; lia.
    + apply RangeMap_above_bound.
    + apply RangeMap_wf_filter, Hwf.
  - apply RangeMap_below_bound.
  - constructor; [simpl; lia|]. constructor; [simpl; lia|].
    eapply Forall_impl; [apply RangeMap_above_bound|]. simpl. intros; lia.
Qed.
End RangeMapFacts.

(** ** Headers *)

Lemma lower_Authorization : lower "Authorization" = "authorization".
Proof. reflexivity. Qed.

Lemma lower_X_Tahoe_Authorization :
  lower "X-Tahoe-Authorization" = "x-tahoe-authorization".
Proof. reflexivity. Qed.

Lemma addRawHeader_same name v (h : Headers) :
  default [] (getRawHeaders name (addRawHeader name v h))
  = (default [] (getRawHeaders name h) ++ [v])%list.
Proof. unfold getRawHeaders, addRawHeader. rewrite lookup_insert_eq. reflexivity. Qed.

Lemma addRawHeader_other name name' v (h : Headers) :
  lower name <> lower name' ->
  getRawHeaders name' (addRawHeader name v h) = getRawHeaders name' h.
Proof. intros Hne. unfold getRawHeaders, addRawHeader. apply lookup_insert_ne, Hne. Qed.

Lemma add_all_same name vs (h : Headers) :
  default [] (getRawHeaders name (add_all name vs h))
  = (default [] (getRawHeaders name h) ++ vs)%list.
Proof.
  revert h. induction vs as [|v vs IH]; intros h; simpl.
  - symmetry. apply app_nil_r.
  - rewrite IH, addRawHeader_same, <- app_assoc. reflexivity.
Qed.

Lemma add_all_other name name' vs (h : Headers) :
  lower name <> lower name' ->
  getRawHeaders name' (add_all name vs h) = getRawHeaders name' h.
Proof.
  intros Hne. revert h. induction vs as [|v vs IH]; intros h; simpl; [reflexivity|].
  rewrite IH. apply addRawHeader_other, Hne.
Qed.

(** ** The request layer *)

Section RequestFacts.
Context `{!Hyperlink, !Cbor2, !HttpCommon, !StorageCommon, !Treq}.

Lemma treq_request_run req w :
  treq_request req w
  = (fst (handle req (net w)),
     {| sent := (sent w ++ [req])%list; net := snd (handle req (net w)) |}).
Proof. unfold treq_request. destruct (handle req (net w)); reflexivity. Qed.

Lemma _request_secrets_supplied pairs (h : Headers) :
  (forall role v, In (role, Some v) pairs -> is_ascii (Secrets_value role) = true) ->
  _request_secrets pairs h
  = Ok (add_all "X-Tahoe-Authorization"
          (flat_map (fun p => supplied (fst p) (snd p)) pairs) h).
Proof.
  revert h. induction pairs as [|[role [v|]] pairs IH]; intros h Hascii; simpl.
  - reflexivity.
  - unfold encode_ascii. rewrite (Hascii role v) by (left; reflexivity). simpl.
    apply IH. intros role' v' Hin. apply (Hascii role' v'). right. exact Hin.
  - apply IH. intros role' v' Hin. apply (Hascii role' v'). right. exact Hin.
Qed.

(** Without a secret the loop of [_request] adds nothing and cannot fail. *)
Lemma _request_secrets_none (h : Headers) :
  _request_secrets [(LEASE_RENEW, None); (LEASE_CANCEL, None); (UPLOAD, None)] h = Ok h.
Proof. reflexivity. Qed.

Lemma _request_run self meth u r c up hdrs body w :
  (forall role v,
      In (role, Some v) [(LEASE_RENEW, r); (LEASE_CANCEL, c); (UPLOAD, up)] ->
      is_ascii (Secrets_value role) = true) ->
  _request self meth u r c up hdrs body w
  = treq_request (issued self meth u r c up hdrs body) w.
Proof.
  intros Hascii. unfold _request, bind, lift.
  rewrite (_request_secrets_supplied _ _ Hascii). simpl.
  unfold issued, secret_headers. rewrite !app_nil_r. reflexivity.
Qed.

Lemma _request_secrets_inv pairs (h h' : Headers) :
  _request_secrets pairs h = Ok h' ->
  h' = add_all "X-Tahoe-Authorization"
         (flat_map (fun p => supplied (fst p) (snd p)) pairs) h.
Proof.
  revert h. induction pairs as [|[role [v|]] pairs IH]; intros h Hrun; simpl in Hrun.
  - injection Hrun as <-. reflexivity.
  - unfold encode_ascii in Hrun.
    destruct (is_ascii (Secrets_value role)); [|discriminate].
    apply IH in Hrun. exact Hrun.
  - apply IH in Hrun. exact Hrun.
Qed.

Lemma issued_headers self meth u (r c up : option bytes) (hdrs : option Headers) body :
  default [] (getRawHeaders "Authorization" (headers (issued self meth u r c up hdrs body)))
  = (default [] (getRawHeaders "Authorization" (default ∅ hdrs))
     ++ [swissnum_auth_header (_swissnum self)])%list /\
  default [] (getRawHeaders "X-Tahoe-Authorization"
                (headers (issued self meth u r c up hdrs body)))
  = (default [] (getRawHeaders "X-Tahoe-Authorization" (default ∅ hdrs))
     ++ secret_headers r c up)%list /\
  (forall name,
      lower name <> "authorization" -> lower name <> "x-tahoe-authorization" ->
      getRawHeaders name (headers (issued self meth u r c up hdrs body))
      = getRawHeaders name (default ∅ hdrs)).
Proof.
  unfold issued; simpl headers. split; [|split].
  - rewrite add_all_other by discriminate.
    unfold _get_headers. rewrite addRawHeader_same. destruct hdrs; reflexivity.
  - rewrite add_all_same. unfold _get_headers.
    rewrite addRawHeader_other by discriminate. destruct hdrs; reflexivity.
  - intros name Ha Hx.
    rewrite add_all_other by (rewrite lower_X_Tahoe_Authorization; congruence).
    unfold _get_headers.
    rewrite addRawHeader_other by (rewrite lower_Authorization; congruence).
    destruct hdrs; reflexivity.
Qed.

(** C5: every request that goes through [_request] carries the
    [Authorization] header made from the swiss number, and under
    [X-Tahoe-Authorization] one value for each secret that is supplied, in
    the order renewal, cancellation, upload: the role's tag, a space and
    the secret in base64.  A secret that is not supplied adds no value,
    and no other header is touched.  The request does go out whenever the
    tags of the supplied secrets are ASCII (otherwise encoding the tag
    raises before anything is sent). *)
Theorem request_authorization_headers
    self meth u (r c up : option bytes) (hdrs : option Headers) body w :
  (forall req,
      sent (snd (_request self meth u r c up hdrs body w)) = (sent w ++ [req])%list ->
      method req = meth /\ url req = u /\ data req = body /\
      default [] (getRawHeaders "Authorization" (headers req))
      = (default [] (getRawHeaders "Authorization" (default ∅ hdrs))
         ++ [swissnum_auth_header (_swissnum self)])%list /\
      default [] (getRawHeaders "X-Tahoe-Authorization" (headers req))
      = (default [] (getRawHeaders "X-Tahoe-Authorization" (default ∅ hdrs))
         ++ match r with
            | Some v => [(Secrets_value LEASE_RENEW ++ " " ++ strip (b64encode v))%string]
            | None => []
            end
         ++ match c with
            | Some v => [(Secrets_value LEASE_CANCEL ++ " " ++ strip (b64encode v))%string]
            | None => []
            end
         ++ match up with
            | Some v => [(Secrets_value UPLOAD ++ " " ++ strip (b64encode v))%string]
            | None => []
            end)%list /\
      (forall name,
          lower name <> "authorization" -> lower name <> "x-tahoe-authorization" ->
          getRawHeaders name (headers req) = getRawHeaders name (default ∅ hdrs))) /\
  ((forall role v,
       In (role, Some v) [(LEASE_RENEW, r); (LEASE_CANCEL, c); (UPLOAD, up)] ->
       is_ascii (Secrets_value role) = true) ->
   exists req,
     _request self meth u r c up hdrs body w
     = (fst (handle req (net w)),
        {| sent := (sent w ++ [req])%list; net := snd (handle req (net w)) |})).
Proof.
  split.
  - intros req Hsent. unfold _request, bind, lift in Hsent.
    destruct (_request_secrets _ (_get_headers self hdrs)) as [h'|e] eqn:Hsecrets.
    + apply _request_secrets_inv in Hsecrets. simpl in Hsecrets. rewrite !app_nil_r in Hsecrets.
      unfold treq_request in Hsent. destruct (handle _ (net w)) as [answer net'].
      simpl in Hsent. apply app_inj_tail in Hsent as [_ <-].
      subst h'. fold (secret_headers r c up). fold (issued self meth u r c up hdrs body).
      split; [reflexivity|]. split; [reflexivity|]. split; [reflexivity|].
      destruct (issued_headers self meth u r c up hdrs body) as [Ha [Hx Ho]].
      split; [exact Ha|]. split; [|exact Ho].
      rewrite Hx. unfold secret_headers, supplied, secret_header.
      destruct r, c, up; reflexivity.
    + simpl in Hsent. apply (f_equal length) in Hsent.
      rewrite length_app in Hsent. simpl in Hsent. lia.
  - intros Hascii. exists (issued self meth u r c up hdrs body).
    rewrite (_request_run _ _ _ _ _ _ _ _ _ Hascii). apply treq_request_run.
Qed.
End RequestFacts.

(** ** The calls on immutable shares *)

Section ImmutablesFacts.
Context `{!Hyperlink, !Cbor2, !HttpCommon, !StorageCommon, !Treq}.

Lemma bind_run {A B} (m : M A) (k : A -> M B) w r w' :
  m w = (r, w') ->
  bind m k w = match r with
               | Ok a => k a w'
               | Raise e => (Raise e, w')
               end.
Proof. intros Hm. unfold bind. rewrite Hm. reflexivity. Qed.

Lemma lift_run {A} (r : Result A) w : lift r w = (r, w).
Proof. reflexivity. Qed.

Lemma ret_run {A} (a : A) w : ret a w = (Ok a, w).
Proof. reflexivity. Qed.

Lemma answered_run {A} (post : Response -> Result A) req w :
  answered post req w
  = (match fst (handle req (net w)) with
     | Ok response => post response
     | Raise e => Raise e
     end,
     {| sent := (sent w ++ [req])%list; net := snd (handle req (net w)) |}).
Proof.
  unfold answered. rewrite (bind_run _ _ _ _ _ (treq_request_run _ _)).
  destruct (fst (handle req (net w))); reflexivity.
Qed.

(** A call that sent [req] is the call that sends [req]. *)
Lemma one_request_sent {A} (call : M A) post w req :
  one_request call post ->
  sent (snd (call w)) = (sent w ++ [req])%list ->
  forall w', call w' = answered post req w'.
Proof.
  intros [[e Hraise] | [req' Hsend]] Hsent.
  - rewrite Hraise in Hsent. simpl in Hsent. apply (f_equal length) in Hsent.
    rewrite length_app in Hsent. simpl in Hsent. lia.
  - rewrite Hsend, answered_run in Hsent. simpl in Hsent.
    apply app_inj_tail in Hsent as [_ ->]. exact Hsend.
Qed.


Lemma _decode_cbor_run response w :
  _decode_cbor response w = (decoded_body response, w).
Proof.
  unfold _decode_cbor, decoded_body.
  destruct ((199 <? code response) && (code response <? 300)); [|reflexivity].
  unfold bind, lift, ret, raise. destruct (content response) as [body|e]; [|reflexivity].
  simpl. destruct (loads body); reflexivity.
Qed.

Lemma bearer_headers self :
  _get_headers self None = {[ "authorization" := [swissnum_auth_header (_swissnum self)] ]}.
Proof.
  unfold _get_headers, addRawHeader, Headers_new. simpl fold_left.
  rewrite lower_Authorization, lookup_empty. reflexivity.
Qed.

Lemma _request_bare self meth u body w :
  _request self meth u None None None None body w
  = treq_request {| method := meth; url := u;
                    headers := {[ "authorization" := [swissnum_auth_header (_swissnum self)] ]};
                    data := body |} w.
Proof.
  unfold _request, bind, lift. rewrite _request_secrets_none, bearer_headers. reflexivity.
Qed.

(** *** [list_shares] *)

Lemma list_shares_sends self si enc w :
  _encode_si si = Ok enc ->
  list_shares self si w = answered shares_of (list_shares_request self enc) w.
Proof.
  intros Henc. rewrite answered_run. unfold list_shares.
  rewrite (bind_run _ _ _ _ _ (lift_run _ _)), Henc.
  erewrite bind_run; cycle 1.
  { rewrite _request_bare. apply treq_request_run. }
  fold (list_shares_request self enc).
  destruct (fst (handle (list_shares_request self enc) (net w))) as [response|e];
    [|reflexivity].
  unfold shares_of. destruct (code response =? 200); [|reflexivity].
  rewrite (bind_run _ _ _ _ _ (_decode_cbor_run _ _)).
  destruct (decoded_body response); reflexivity.
Qed.

Lemma list_shares_one_request self si :
  one_request (list_shares self si) shares_of.
Proof.
  destruct (_encode_si si) as [enc|e] eqn:Henc.
  - right. exists (list_shares_request self enc). intros w.
    apply list_shares_sends, Henc.
  - left. exists e. intros w. unfold list_shares.
    rewrite (bind_run _ _ _ _ _ (lift_run _ _)), Henc. reflexivity.
Qed.

(** C8: the one request of [list_shares] is a GET whose only header is the
    bearer [Authorization]; it carries no [X-Tahoe-Authorization] value,
    hence no renewal, cancellation or upload secret.  (When the storage
    index has no ASCII form the call raises before sending anything.) *)
Theorem list_shares_sends_bearer_only self si w :
  sent (snd (list_shares self si w))
  = (sent w ++
     match _encode_si si with
     | Ok enc =>
         [{| method := "GET";
             url := _url self ("/v1/immutable/" ++ enc ++ "/shares");
             headers := {[ "authorization" := [swissnum_auth_header (_swissnum self)] ]};
             data := None |}]
     | Raise _ => []
     end)%list /\
  getRawHeaders "X-Tahoe-Authorization"
    ({[ "authorization" := [swissnum_auth_header (_swissnum self)] ]} : Headers) = None.
Proof.
  split; [|reflexivity].
  destruct (_encode_si si) as [enc|e] eqn:Henc.
  - rewrite (list_shares_sends _ _ _ _ Henc), answered_run. reflexivity.
  - unfold list_shares. rewrite (bind_run _ _ _ _ _ (lift_run _ _)), Henc.
    simpl. symmetry. apply app_nil_r.
Qed.

(** C7, as the code has it: [list_shares] accepts status 200 only.  With
    200 the result is the set of the elements of the decoded body, for a
    list of share numbers the set of these numbers; every other status,
    the other 2xx codes included, raises [ClientException] with the
    status. *)
Theorem list_shares_accepts_200_only self si w req response :
  sent (snd (list_shares self si w)) = (sent w ++ [req])%list ->
  fst (handle req (net w)) = Ok response ->
  (code response = 200 ->
   forall body decoded,
     content response = Ok body -> loads body = Some decoded ->
     fst (list_shares self si w) = set_of decoded /\
     forall shares : list Z,
       decoded = VList (map VInt shares) ->
       fst (list_shares self si w) = Ok (Listset (map VInt shares))) /\
  (code response <> 200 ->
   fst (list_shares self si w) = Raise (ClientException (code response) None)).
Proof.
  intros Hsent Hanswer.
  rewrite (one_request_sent _ _ _ _ (list_shares_one_request self si) Hsent).
  rewrite answered_run. cbn [fst]. rewrite Hanswer. unfold shares_of. split.
  - intros H200 body decoded Hbody Hloads. unfold decoded_body.
    rewrite H200, Hbody. cbn [Z.eqb Z.ltb Z.compare Pos.compare Pos.compare_cont andb Pos.eqb bindR].
    rewrite Hloads. cbn [bindR].
    split; [reflexivity|]. intros shares ->. unfold set_of. cbn [iterate bindR].
    replace (forallb hashable (map VInt shares)) with true; [reflexivity|].
    symmetry. apply forallb_forall. intros x Hx. apply in_map_iff in Hx as [z [<- _]].
    reflexivity.
  - intros Hne. destruct (Z.eqb_spec (code response) 200); [contradiction | reflexivity].
Qed.

(** *** [read_share_chunk] *)

Lemma Range_new_ok offset length :
  0 <= offset -> 0 < length ->
  Range_new "bytes" [(offset, offset + length)]
  = Ok {| range_units := "bytes"; ranges := [(offset, offset + length)] |}.
Proof.
  intros Ho Hl. unfold Range_new. simpl.
  destruct (Z.ltb_spec offset 0); [lia|].
  destruct (Z.leb_spec (offset + length) offset); [lia|]. reflexivity.
Qed.

Lemma Range_new_inv units offset length r :
  Range_new units [(offset, offset + length)] = Ok r -> 0 <= offset /\ 0 < length.
Proof.
  unfold Range_new. simpl.
  destruct (Z.ltb_spec offset 0); [discriminate|].
  destruct (Z.leb_spec (offset + length) offset); [discriminate|]. lia.
Qed.

Lemma read_share_chunk_sends self si enc share offset length w :
  _encode_si si = Ok enc -> 0 <= offset -> 0 < length ->
  read_share_chunk self si share offset length w
  = answered body_of (read_share_chunk_request self enc share offset length) w.
Proof.
  intros Henc Ho Hl. rewrite answered_run. unfold read_share_chunk.
  rewrite (bind_run _ _ _ _ _ (lift_run _ _)), Henc.
  rewrite (bind_run _ _ _ _ _ (lift_run _ _)), Range_new_ok by assumption.
  erewrite bind_run; cycle 1.
  { rewrite _request_run by (intros role v [E|[E|[E|[]]]]; discriminate E).
    apply treq_request_run. }
  replace (issued self "GET" _ None None None _ None)
    with (read_share_chunk_request self enc share offset length) by reflexivity.
  destruct (fst (handle _ (net w))) as [response|e]; [|reflexivity].
  unfold body_of. destruct (code response =? 206); [|reflexivity].
  unfold bind, lift, ret. destruct (content response); reflexivity.
Qed.

Lemma read_share_chunk_one_request self si share offset length :
  one_request (read_share_chunk self si share offset length) body_of.
Proof.
  destruct (_encode_si si) as [enc|e] eqn:Henc.
  2:{ left. exists e. intros w. unfold read_share_chunk.
      rewrite (bind_run _ _ _ _ _ (lift_run _ _)), Henc. reflexivity. }
  destruct (Range_new "bytes" [(offset, offset + length)]) as [r|e] eqn:Hrange.
  - apply Range_new_inv in Hrange as [Ho Hl]. right.
    exists (read_share_chunk_request self enc share offset length). intros w.
    apply read_share_chunk_sends; assumption.
  - left. exists e. intros w. unfold read_share_chunk.
    rewrite (bind_run _ _ _ _ _ (lift_run _ _)), Henc.
    rewrite (bind_run _ _ _ _ _ (lift_run _ _)), Hrange. reflexivity.
Qed.

(** C1, as the code has it: [read_share_chunk] asks for the bytes
    [offset, offset + length) and hands back the body of a 206 response as
    it came, of whatever length: neither the length nor the range the
    server says it sent is compared with the request.  Any other status
    raises [ClientException] with the status; a failure of the transport
    is passed on. *)
Theorem read_share_chunk_returns_body_of_206 self si share offset length w :
  (forall req,
      sent (snd (read_share_chunk self si share offset length w)) = (sent w ++ [req])%list ->
      (forall response,
          fst (handle req (net w)) = Ok response ->
          (code response = 206 ->
           fst (read_share_chunk self si share offset length w) = content response) /\
          (code response <> 206 ->
           fst (read_share_chunk self si share offset length w)
           = Raise (ClientException (code response) None))) /\
      (forall e,
          fst (handle req (net w)) = Raise e ->
          fst (read_share_chunk self si share offset length w) = Raise e)) /\
  (forall enc,
      _encode_si si = Ok enc -> 0 <= offset -> 0 < length ->
      sent (snd (read_share_chunk self si share offset length w))
      = (sent w ++
         [{| method := "GET";
             url := _url self ("/v1/immutable/" ++ enc ++ "/" ++ str_of_int share);
             headers := {[ "authorization" := [swissnum_auth_header (_swissnum self)];
                           "range" := [("bytes=" ++ str_of_int offset ++ "-"
                                        ++ str_of_int (offset + length - 1))%string] ]};
             data := None |}])%list).
Proof.
  split.
  - intros req Hsent.
    rewrite (one_request_sent _ _ _ _
               (read_share_chunk_one_request self si share offset length) Hsent).
    rewrite answered_run. cbn [fst]. unfold body_of. split.
    + intros response ->. split.
      * intros ->. reflexivity.
      * intros Hne. destruct (Z.eqb_spec (code response) 206); [contradiction|reflexivity].
    + intros e ->. reflexivity.
  - intros enc Henc Ho Hl.
    rewrite (read_share_chunk_sends _ _ _ _ _ _ _ Henc Ho Hl), answered_run. reflexivity.
Qed.

(** *** [write_share_chunk] *)

Lemma ContentRange_new_ok offset stop :
  0 <= offset -> offset < stop ->
  ContentRange_new "bytes" offset stop
  = Ok {| cr_units := "bytes"; cr_start := offset; cr_stop := stop |}.
Proof.
  intros Ho Hl. unfold ContentRange_new, is_byte_range_valid.
  destruct (Z.leb_spec 0 offset); [|lia].
  destruct (Z.ltb_spec offset stop); [|lia]. reflexivity.
Qed.

Lemma ContentRange_new_inv units offset stop cr :
  ContentRange_new units offset stop = Ok cr -> 0 <= offset /\ offset < stop.
Proof.
  unfold ContentRange_new, is_byte_range_valid.
  destruct (Z.leb_spec 0 offset); [|discriminate].
  destruct (Z.ltb_spec offset stop); [|discriminate]. lia.
Qed.

Lemma write_share_chunk_tail fin response w :
  (body <- _decode_cbor response ;;
   required <- lift (getitem body "required") ;;
   chunks <- lift (iterate required) ;;
   remaining <- lift (set_required chunks RangeMap.empty) ;;
   ret {| finished := fin; required := remaining |}) w
  = (body <-? decoded_body response ;;
     required <-? getitem body "required" ;;
     chunks <-? iterate required ;;
     remaining <-? set_required chunks RangeMap.empty ;;
     Ok {| finished := fin; required := remaining |}, w).
Proof.
  rewrite (bind_run _ _ _ _ _ (_decode_cbor_run _ _)).
  destruct (decoded_body response) as [body|e]; [|reflexivity].
  cbn [bindR]. rewrite (bind_run _ _ _ _ _ (lift_run _ _)).
  destruct (getitem body "required") as [required|e]; [|reflexivity].
  cbn [bindR]. rewrite (bind_run _ _ _ _ _ (lift_run _ _)).
  destruct (iterate required) as [chunks|e]; [|reflexivity].
  cbn [bindR]. rewrite (bind_run _ _ _ _ _ (lift_run _ _)).
  destruct (set_required chunks RangeMap.empty) as [remaining|e]; reflexivity.
Qed.

Lemma write_share_chunk_sends self si enc share up offset chunk w :
  _encode_si si = Ok enc -> 0 <= offset -> 0 < len chunk ->
  is_ascii (Secrets_value UPLOAD) = true ->
  write_share_chunk self si share up offset chunk w
  = answered progress_of (write_share_chunk_request self enc share up offset chunk) w.
Proof.
  intros Henc Ho Hl Hascii. rewrite answered_run. unfold write_share_chunk.
  rewrite (bind_run _ _ _ _ _ (lift_run _ _)), Henc.
  rewrite (bind_run _ _ _ _ _ (lift_run _ _)), ContentRange_new_ok by lia.
  erewrite bind_run; cycle 1.
  { rewrite _request_run.
    - apply treq_request_run.
    - intros role v [E|[E|[E|[]]]]; inversion E; subst; exact Hascii. }
  replace (issued self "PATCH" _ None None (Some up) _ (Some chunk))
    with (write_share_chunk_request self enc share up offset chunk) by reflexivity.
  destruct (fst (handle _ (net w))) as [response|e]; [|reflexivity].
  unfold progress_of.
  destruct (code response =? 200).
  { rewrite (bind_run _ _ _ _ _ (ret_run _ _)). apply write_share_chunk_tail. }
  destruct (code response =? 201).
  { rewrite (bind_run _ _ _ _ _ (ret_run _ _)). apply write_share_chunk_tail. }
  reflexivity.
Qed.

Lemma write_share_chunk_one_request self si share up offset chunk :
  one_request (write_share_chunk self si share up offset chunk) progress_of.
Proof.
  destruct (_encode_si si) as [enc|e] eqn:Henc.
  2:{ left. exists e. intros w. unfold write_share_chunk.
      rewrite (bind_run _ _ _ _ _ (lift_run _ _)), Henc. reflexivity. }
  destruct (ContentRange_new "bytes" offset (offset + len chunk)) as [cr|e] eqn:Hcr.
  2:{ left. exists e. intros w. unfold write_share_chunk.
      rewrite (bind_run _ _ _ _ _ (lift_run _ _)), Henc.
      rewrite (bind_run _ _ _ _ _ (lift_run _ _)), Hcr. reflexivity. }
  apply ContentRange_new_inv in Hcr as Hvalid. destruct Hvalid as [Ho Hl].
  destruct (is_ascii (Secrets_value UPLOAD)) eqn:Hascii.
  - right. exists (write_share_chunk_request self enc share up offset chunk). intros w.
    apply write_share_chunk_sends; [assumption | assumption | lia | assumption].
  - left. exists UnicodeError. intros w. unfold write_share_chunk.
    rewrite (bind_run _ _ _ _ _ (lift_run _ _)), Henc.
    rewrite (bind_run _ _ _ _ _ (lift_run _ _)), Hcr.
    unfold _request. cbn [_request_secrets]. unfold encode_ascii. rewrite Hascii.
    reflexivity.
Qed.

Lemma create_sends self si enc share_numbers allocated_size up renew cancel w :
  _encode_si si = Ok enc ->
  is_ascii (Secrets_value LEASE_RENEW) = true ->
  is_ascii (Secrets_value LEASE_CANCEL) = true ->
  is_ascii (Secrets_value UPLOAD) = true ->
  create self si share_numbers allocated_size up renew cancel w
  = answered created_of
      (create_request self enc share_numbers allocated_size up renew cancel) w.
Proof.
  intros Henc Hr Hc Hu. rewrite answered_run. unfold create.
  rewrite (bind_run _ _ _ _ _ (lift_run _ _)), Henc.
  erewrite bind_run; cycle 1.
  { rewrite _request_run.
    - apply treq_request_run.
    - intros role v [E|[E|[E|[]]]]; inversion E; subst; assumption. }
  replace (issued self "POST" _ (Some renew) (Some cancel) (Some up) _ _)
    with (create_request self enc share_numbers allocated_size up renew cancel)
    by reflexivity.
  destruct (fst (handle _ (net w))) as [response|e]; [|reflexivity].
  unfold created_of.
  rewrite (bind_run _ _ _ _ _ (_decode_cbor_run _ _)).
  destruct (decoded_body response) as [decoded|e]; [|reflexivity].
  cbn [bindR]. rewrite (bind_run _ _ _ _ _ (lift_run _ _)).
  destruct (getitem decoded "already-have") as [have|e]; [|reflexivity].
  cbn [bindR]. rewrite (bind_run _ _ _ _ _ (lift_run _ _)).
  destruct (getitem decoded "allocated") as [alloc|e]; reflexivity.
Qed.

Lemma create_one_request self si share_numbers allocated_size up renew cancel :
  one_request (create self si share_numbers allocated_size up renew cancel) created_of.
Proof.
  destruct (_encode_si si) as [enc|e] eqn:Henc.
  2:{ left. exists e. intros w. unfold create.
      rewrite (bind_run _ _ _ _ _ (lift_run _ _)), Henc. reflexivity. }
  destruct (is_ascii (Secrets_value LEASE_RENEW)) eqn:Hr.
  2:{ left. exists UnicodeError. intros w. unfold create.
      rewrite (bind_run _ _ _ _ _ (lift_run _ _)), Henc.
      unfold _request. cbn [_request_secrets]. unfold encode_ascii. rewrite Hr.
      reflexivity. }
  destruct (is_ascii (Secrets_value LEASE_CANCEL)) eqn:Hc.
  2:{ left. exists UnicodeError. intros w. unfold create.
      rewrite (bind_run _ _ _ _ _ (lift_run _ _)), Henc.
      unfold _request. cbn [_request_secrets]. unfold encode_ascii. rewrite Hr, Hc.
      reflexivity. }
  destruct (is_ascii (Secrets_value UPLOAD)) eqn:Hu.
  2:{ left. exists UnicodeError. intros w. unfold create.
      rewrite (bind_run _ _ _ _ _ (lift_run _ _)), Henc.
      unfold _request. cbn [_request_secrets]. unfold encode_ascii. rewrite Hr, Hc, Hu.
      reflexivity. }
  right. exists (create_request self enc share_numbers allocated_size up renew cancel).
  intros w. apply create_sends; assumption.
Qed.

Lemma covered_spec rs k :
  covered rs k = true <-> exists r, In r rs /\ fst r <= k < snd r.
Proof.
  unfold covered. rewrite existsb_exists. split; intros [r [Hin Hr]]; exists r; split; auto.
  - apply andb_true_iff in Hr as [Hlo Hhi]. apply Z.leb_le in Hlo. apply Z.ltb_lt in Hhi. lia.
  - apply andb_true_iff. split; [apply Z.leb_le | apply Z.ltb_lt]; lia.
Qed.

(** The loop over [required] writes [True] over each listed range and
    nothing else. *)
Lemma set_required_ranges chunks : forall rs (m : RangeMap.t bool),
  chunk_ranges chunks = Some rs -> Forall (fun r => fst r < snd r) rs ->
  RangeMap.wf m ->
  exists m',
    set_required chunks m = Ok m' /\ RangeMap.wf m' /\
    forall k, RangeMap.get m' k = if covered rs k then Some true else RangeMap.get m k.
Proof.
  induction chunks as [|chunk chunks IH]; intros rs m Hrs Hlt Hwf; simpl in Hrs.
  - injection Hrs as <-. exists m. repeat split; auto.
  - destruct (chunk_range chunk) as [[b e]|] eqn:Hchunk; [|discriminate].
    destruct (chunk_ranges chunks) as [rs'|] eqn:Hrest; [|discriminate].
    injection Hrs as <-. apply Forall_cons in Hlt as [Hbe Hlt]. simpl in Hbe.
    unfold chunk_range in Hchunk.
    destruct (getitem chunk "begin") as [[| | b'| | | | |]|] eqn:Hb; try discriminate.
    destruct (getitem chunk "end") as [[| | e'| | | | |]|] eqn:He; try discriminate.
    injection Hchunk as -> ->.
    cbn [set_required]. rewrite Hb, He. cbn [bindR RangeMap_set].
    destruct (RangeMap.set true b e m) as [m1|err] eqn:Hset.
    2:{ unfold RangeMap.set in Hset. destruct (Z.leb_spec e b); [lia | discriminate]. }
    cbn [bindR].
    destruct (IH rs' m1 eq_refl Hlt (RangeMap_wf_set _ _ _ _ _ Hwf Hset))
      as [m' [Hm' [Hwf' Hget]]].
    exists m'. repeat split; auto.
    intros k. rewrite Hget, (RangeMap_get_set _ _ _ _ _ k Hwf Hset).
    unfold covered. cbn [existsb fst snd].
    destruct (existsb _ rs'); [rewrite orb_true_r; reflexivity|].
    rewrite orb_false_r. reflexivity.
Qed.

(** C2: what [write_share_chunk] returns follows the status of the
    response to its request.  Any status other than 200 and 201 raises
    [ClientException] with that status.  With 200 or 201 and a body that
    decodes to a map whose [required] entry lists ranges [{begin, end}],
    the call returns an [UploadProgress] with [finished] false for 200 and
    true for 201, and a [required] map that holds [True] exactly on the
    keys of the listed half-open ranges.  No other pairing of status and
    [finished] is ever returned. *)
Theorem write_share_chunk_progress self si share up offset chunk w req response :
  sent (snd (write_share_chunk self si share up offset chunk w)) = (sent w ++ [req])%list ->
  fst (handle req (net w)) = Ok response ->
  let result := fst (write_share_chunk self si share up offset chunk w) in
  (code response <> 200 -> code response <> 201 ->
   result = Raise (ClientException (code response) None)) /\
  (code response = 200 \/ code response = 201 ->
   forall body decoded chunks rs,
     content response = Ok body -> loads body = Some decoded ->
     getitem decoded "required" = Ok (VList chunks) ->
     chunk_ranges chunks = Some rs -> Forall (fun r => fst r < snd r) rs ->
     exists progress,
       result = Ok progress /\
       finished progress = (code response =? 201) /\
       forall k, RangeMap.get (required progress) k = Some true
                 <-> exists r, In r rs /\ fst r <= k < snd r) /\
  (forall progress,
      result = Ok progress ->
      (code response = 200 /\ finished progress = false) \/
      (code response = 201 /\ finished progress = true)).
Proof.
  intros Hsent Hanswer result. subst result.
  rewrite (one_request_sent _ _ _ _
             (write_share_chunk_one_request self si share up offset chunk) Hsent).
  rewrite answered_run. cbn [fst].
  rewrite Hanswer. unfold progress_of. split; [|split].
  - intros H200 H201.
    destruct (Z.eqb_spec (code response) 200); [contradiction|].
    destruct (Z.eqb_spec (code response) 201); [contradiction|]. reflexivity.
  - intros Hcode body decoded chunks rs Hbody Hloads Hreq Hrs Hlt.
    destruct (set_required_ranges chunks rs RangeMap.empty Hrs Hlt I)
      as [m' [Hm' [_ Hget]]].
    exists {| finished := (code response =? 201); required := m' |}.
    split; [|split; [reflexivity|]].
    + replace (if code response =? 200 then Ok false
               else if code response =? 201 then Ok true
               else Raise (ClientException (code response) None))
        with (Ok (A := bool) (code response =? 201))
        by (destruct Hcode as [-> | ->]; reflexivity).
      unfold decoded_body. rewrite Hbody.
      replace ((199 <? code response) && (code response <? 300)) with true
        by (destruct Hcode as [-> | ->]; reflexivity).
      cbn [bindR]. rewrite Hloads. cbn [bindR]. rewrite Hreq. cbn [bindR iterate].
      rewrite Hm'. reflexivity.
    + intros k. cbn [required]. rewrite Hget, <- covered_spec.
      destruct (covered rs k); [tauto|]. split; [discriminate|discriminate].
  - intros progress.
    destruct (Z.eqb_spec (code response) 200) as [H200|H200].
    + cbn [bindR]. intros Hp. left. split; [assumption|].
      destruct (decoded_body response); [|discriminate]. cbn [bindR] in Hp.
      destruct (getitem _ "required"); [|discriminate]. cbn [bindR] in Hp.
      destruct (iterate _); [|discriminate]. cbn [bindR] in Hp.
      destruct (set_required _ _); [|discriminate]. injection Hp as <-. reflexivity.
    + destruct (Z.eqb_spec (code response) 201) as [H201|H201]; [|discriminate].
      cbn [bindR]. intros Hp. right. split; [assumption|].
      destruct (decoded_body response); [|discriminate]. cbn [bindR] in Hp.
      destruct (getitem _ "required"); [|discriminate]. cbn [bindR] in Hp.
      destruct (iterate _); [|discriminate]. cbn [bindR] in Hp.
      destruct (set_required _ _); [|discriminate]. injection Hp as <-. reflexivity.
Qed.



(** C6: [create] issues one POST to [/v1/immutable/<storage index>],
    the index in the text form of [si_b2a], with the three secrets under
    [X-Tahoe-Authorization] in the order renewal, cancellation, upload,
    the bearer header, and the encoded map of [share-numbers] and
    [allocated-size] as its body; it does so whenever that text form and
    the role tags are ASCII, and sends nothing otherwise.  A 2xx response
    whose body decodes to a map with [already-have] and [allocated]
    gives a result with exactly these two values; any other status
    raises [ClientException] with the status.  The client keeps no
    record of earlier calls: creating the same storage index again sends
    the same POST again and succeeds in the same way whenever the server
    answers with success. *)
Theorem create_posts_and_reports
    self si share_numbers allocated_size up renew cancel w :
  let call := create self si share_numbers allocated_size up renew cancel in
  let post :=
    {| method := "POST";
       url := click (_base_url self) ("/v1/immutable/" ++ si_b2a si);
       headers :=
         {[ "x-tahoe-authorization" :=
              [(Secrets_value LEASE_RENEW ++ " " ++ strip (b64encode renew))%string;
               (Secrets_value LEASE_CANCEL ++ " " ++ strip (b64encode cancel))%string;
               (Secrets_value UPLOAD ++ " " ++ strip (b64encode up))%string];
            "authorization" := [swissnum_auth_header (_swissnum self)];
            "content-type" := ["application/cbor"] ]};
       data :=
         Some (dumps (VDict [(VText "share-numbers", VSet (map VInt share_numbers));
                             (VText "allocated-size", VInt allocated_size)])) |} in
  (is_ascii (si_b2a si) = true ->
   (forall role, is_ascii (Secrets_value role) = true) ->
   snd (call w)
   = {| sent := (sent w ++ [post])%list; net := snd (handle post (net w)) |} /\
   sent (snd (call (snd (call w)))) = (sent w ++ [post; post])%list) /\
  (is_ascii (si_b2a si) = false -> call w = (Raise UnicodeError, w)) /\
  (forall req,
      sent (snd (call w)) = (sent w ++ [req])%list ->
      req = post /\
      (method req = "POST" /\
       (exists enc, _encode_si si = Ok enc /\
                    url req = click (_base_url self) ("/v1/immutable/" ++ enc)) /\
       getRawHeaders "X-Tahoe-Authorization" (headers req)
       = Some [(Secrets_value LEASE_RENEW ++ " " ++ strip (b64encode renew))%string;
               (Secrets_value LEASE_CANCEL ++ " " ++ strip (b64encode cancel))%string;
               (Secrets_value UPLOAD ++ " " ++ strip (b64encode up))%string] /\
       getRawHeaders "Authorization" (headers req)
       = Some [swissnum_auth_header (_swissnum self)] /\
       data req
       = Some (dumps (VDict [(VText "share-numbers", VSet (map VInt share_numbers));
                             (VText "allocated-size", VInt allocated_size)]))) /\
      (forall w' response,
          fst (handle req (net w')) = Ok response ->
          (200 <= code response < 300 ->
           forall body decoded have alloc,
             content response = Ok body -> loads body = Some decoded ->
             getitem decoded "already-have" = Ok have ->
             getitem decoded "allocated" = Ok alloc ->
             fst (call w') = Ok {| already_have := have; allocated := alloc |}) /\
          (~ 200 <= code response < 300 ->
           fst (call w')
           = Raise (ClientException (code response) (Some (phrase response))))) /\
      (forall w' e, fst (handle req (net w')) = Raise e -> fst (call w') = Raise e) /\
      (forall response body decoded have alloc,
          fst (handle req (net (snd (call w)))) = Ok response ->
          200 <= code response < 300 ->
          content response = Ok body -> loads body = Some decoded ->
          getitem decoded "already-have" = Ok have ->
          getitem decoded "allocated" = Ok alloc ->
          fst (call (snd (call w))) = Ok {| already_have := have; allocated := alloc |})).
Proof.
  intros call post. split; [|split].
  - intros Hsi Htags.
    assert (Henc : _encode_si si = Ok (si_b2a si)).
    { unfold _encode_si, decode_ascii. rewrite Hsi. reflexivity. }
    assert (Hrun : forall w', call w' = answered created_of post w').
    { intros w'. unfold call.
      rewrite (create_sends _ _ _ _ _ _ _ _ _ Henc (Htags _) (Htags _) (Htags _)).
      reflexivity. }
    rewrite !Hrun, !answered_run. cbn [snd sent]. split; [reflexivity|].
    rewrite <- app_assoc. reflexivity.
  - intros Hsi. unfold call, create.
    rewrite (bind_run _ _ _ _ _ (lift_run _ _)).
    unfold _encode_si, decode_ascii. rewrite Hsi. reflexivity.
  - intros req Hsent.
    pose proof (one_request_sent _ _ _ _
                  (create_one_request self si share_numbers allocated_size up renew cancel)
                  Hsent) as Hrun.
    fold call in Hrun.
    assert (Hok : forall w' response body decoded have alloc,
               fst (handle req (net w')) = Ok response ->
               200 <= code response < 300 ->
               content response = Ok body -> loads body = Some decoded ->
               getitem decoded "already-have" = Ok have ->
               getitem decoded "allocated" = Ok alloc ->
               fst (call w') = Ok {| already_have := have; allocated := alloc |}).
    { intros w' response body decoded have alloc Hresp Hcode Hbody Hloads Hhave Halloc.
      rewrite Hrun, answered_run. cbn [fst]. rewrite Hresp. unfold created_of, decoded_body.
      destruct (Z.ltb_spec 199 (code response)); [|lia].
      destruct (Z.ltb_spec (code response) 300); [|lia].
      cbn [andb]. rewrite Hbody. cbn [bindR]. rewrite Hloads. cbn [bindR].
      rewrite Hhave. cbn [bindR]. rewrite Halloc. reflexivity. }
    assert (Hinv : exists enc,
               _encode_si si = Ok enc /\
               req = create_request self enc share_numbers allocated_size up renew cancel).
    { destruct (create_one_request self si share_numbers allocated_size up renew cancel)
        as [[e Hraise] | [req' Hsend]].
      { fold call in Hraise. rewrite Hraise in Hsent. simpl in Hsent.
        apply (f_equal length) in Hsent. rewrite length_app in Hsent. simpl in Hsent. lia. }
      fold call in Hsend. rewrite Hsend, answered_run in Hsent. simpl in Hsent.
      apply app_inj_tail in Hsent as [_ Hreq].
      destruct (_encode_si si) as [enc|e] eqn:Henc.
      2:{ exfalso. specialize (Hsend w). unfold call, create in Hsend.
          rewrite (bind_run _ _ _ _ _ (lift_run _ _)), Henc, answered_run in Hsend.
          apply (f_equal (fun p => length (sent (snd p)))) in Hsend. simpl in Hsend.
          rewrite length_app in Hsend. simpl in Hsend. lia. }
      destruct (is_ascii (Secrets_value LEASE_RENEW)) eqn:Hr.
      2:{ exfalso. specialize (Hsend w). unfold call, create in Hsend.
          rewrite (bind_run _ _ _ _ _ (lift_run _ _)), Henc in Hsend.
          unfold _request in Hsend. cbn [_request_secrets] in Hsend.
          unfold encode_ascii in Hsend. rewrite Hr, answered_run in Hsend.
          apply (f_equal (fun p => length (sent (snd p)))) in Hsend. simpl in Hsend.
          rewrite length_app in Hsend. simpl in Hsend. lia. }
      destruct (is_ascii (Secrets_value LEASE_CANCEL)) eqn:Hc.
      2:{ exfalso. specialize (Hsend w). unfold call, create in Hsend.
          rewrite (bind_run _ _ _ _ _ (lift_run _ _)), Henc in Hsend.
          unfold _request in Hsend. cbn [_request_secrets] in Hsend.
          unfold encode_ascii in Hsend. rewrite Hr, Hc, answered_run in Hsend.
          apply (f_equal (fun p => length (sent (snd p)))) in Hsend. simpl in Hsend.
          rewrite length_app in Hsend. simpl in Hsend. lia. }
      destruct (is_ascii (Secrets_value UPLOAD)) eqn:Hu.
      2:{ exfalso. specialize (Hsend w). unfold call, create in Hsend.
          rewrite (bind_run _ _ _ _ _ (lift_run _ _)), Henc in Hsend.
          unfold _request in Hsend. cbn [_request_secrets] in Hsend.
          unfold encode_ascii in Hsend. rewrite Hr, Hc, Hu, answered_run in Hsend.
          apply (f_equal (fun p => length (sent (snd p)))) in Hsend. simpl in Hsend.
          rewrite length_app in Hsend. simpl in Hsend. lia. }
      specialize (Hsend w). unfold call in Hsend.
      rewrite (create_sends _ _ _ _ _ _ _ _ _ Henc Hr Hc Hu), !answered_run in Hsend.
      apply (f_equal (fun p => sent (snd p))) in Hsend. simpl in Hsend.
      apply app_inj_tail in Hsend as [_ Hreq']. subst req' req.
      exists enc. split; reflexivity. }
    destruct Hinv as [enc [Henc ->]].
    assert (Htext : enc = si_b2a si).
    { unfold _encode_si, decode_ascii in Henc.
      destruct (is_ascii (si_b2a si)); [|discriminate]. injection Henc as <-. reflexivity. }
    split; [rewrite Htext; reflexivity|].
    split; [|split; [|split]].
    + split; [reflexivity|]. split; [exists enc; split; [exact Henc | reflexivity]|].
      repeat split.
    + intros w' response Hresp. split.
      * intros Hcode body decoded have alloc. apply Hok; assumption.
      * intros Hcode. rewrite Hrun, answered_run. cbn [fst]. rewrite Hresp.
        unfold created_of, decoded_body.
        destruct (Z.ltb_spec 199 (code response));
          destruct (Z.ltb_spec (code response) 300); try reflexivity.
        exfalso. apply Hcode. lia.
    + intros w' e He. rewrite Hrun, answered_run. cbn [fst]. rewrite He. reflexivity.
    + intros response body decoded have alloc. apply Hok.
Qed.
End ImmutablesFacts.

(** ** Constructing a client *)

Section ConstructionFacts.
Context `{!Hyperlink}.

Lemma http_is_not_https s :
  startswith s "http://" = true -> startswith s "https://" = false.
Proof.
  unfold startswith.
  destruct s as [|c1 [|c2 [|c3 [|c4 [|c5 s]]]]]; try reflexivity.
  all: cbn [String.prefix].
  all: repeat match goal with
         | |- context [Ascii.ascii_dec ?a ?b] => destruct (Ascii.ascii_dec a b); subst
         end; try reflexivity; try discriminate.
Qed.

(** C9, as the code has it: a furl with fragment ["v=1"] and scheme ["pb"]
    whose path has a first segment, that segment and the user being ASCII,
    makes [from_furl] return [None]; without a path segment the call
    raises [IndexError].  Whatever the furl, no [StorageClient] is ever
    returned. *)
Theorem from_furl_returns_None furl :
  fragment furl = "v=1" -> scheme furl = "pb" ->
  (forall first rest,
      path furl = first :: rest ->
      is_ascii first = true -> is_ascii (user furl) = true ->
      from_furl furl = Ok None) /\
  (path furl = [] -> from_furl furl = Raise IndexError) /\
  (forall client, from_furl furl <> Ok (Some client)).
Proof.
  intros Hfrag Hscheme. unfold from_furl. rewrite Hfrag, Hscheme. cbn [String.eqb].
  change (assert (String.eqb "v=1" "v=1")) with (Ok tt).
  change (assert (String.eqb "pb" "pb")) with (Ok tt). cbn [bindR].
  split; [|split].
  - intros first rest -> Hfirst Huser. unfold encode_ascii. rewrite Hfirst, Huser.
    reflexivity.
  - intros ->. reflexivity.
  - intros client. destruct (path furl) as [|first rest]; [discriminate|].
    destruct (encode_ascii first); [|discriminate]. cbn [bindR].
    destruct (encode_ascii (user furl)); discriminate.
Qed.

(** C10: a base URL whose text does not start with ["https://"] fails the
    assertion of the constructor, a URL starting with ["http://"] among
    them; a URL that does start so is taken as it is, and every client
    that was constructed has such a base URL. *)
Theorem StorageClient_requires_https url swissnum :
  (startswith (to_text url) "https://" = false ->
   StorageClient__init__ url swissnum = Raise AssertionError) /\
  (startswith (to_text url) "http://" = true ->
   StorageClient__init__ url swissnum = Raise AssertionError) /\
  (startswith (to_text url) "https://" = true ->
   StorageClient__init__ url swissnum = Ok {| _base_url := url; _swissnum := swissnum |}) /\
  (forall client,
      StorageClient__init__ url swissnum = Ok client ->
      startswith (to_text (_base_url client)) "https://" = true /\
      _base_url client = url /\ _swissnum client = swissnum).
Proof.
  unfold StorageClient__init__, assert.
  split; [|split; [|split]].
  - intros ->. reflexivity.
  - intros Hhttp. rewrite (http_is_not_https _ Hhttp). reflexivity.
  - intros ->. reflexivity.
  - intros client. destruct (startswith (to_text url) "https://") eqn:Hs; [|discriminate].
    cbn [bindR]. intros Hc. injection Hc as <-. auto.
Qed.
End ConstructionFacts.

(** ** The peer permutation *)

Section PeerSelectorFacts.
Variable score : bytes -> bytes -> Z.

Lemma pair_le_trans : Transitive PeerSelector.pair_le.
Proof.
  intros [x1 x2] [y1 y2] [z1 z2]. unfold PeerSelector.pair_le. simpl.
  intros [Hxy | [Hxy Hxy']] [Hyz | [Hyz Hyz']]; try (left; lia).
  right. split; [lia|]. etransitivity; eassumption.
Qed.

Lemma pair_le_antisym : AntiSymm (=) PeerSelector.pair_le.
Proof.
  intros [x1 x2] [y1 y2]. unfold PeerSelector.pair_le. simpl.
  intros [Hxy | [Hxy Hxy']] [Hyx | [Hyx Hyx']]; try lia.
  f_equal; [assumption|]. apply (anti_symm String.le); assumption.
Qed.

Lemma pair_le_total : Total PeerSelector.pair_le.
Proof.
  intros [x1 x2] [y1 y2]. unfold PeerSelector.pair_le. simpl.
  destruct (Z.lt_trichotomy x1 y1) as [Hlt | [Heq | Hgt]]; [left; left; lia | | right; left; lia].
  destruct (total String.le x2 y2); [left | right]; right; split; auto.
Qed.

Lemma get_permuted_peers_sorted c key :
  Sorted PeerSelector.pair_le (PeerSelector.get_permuted_peers score c key).
Proof.
  unfold PeerSelector.get_permuted_peers.
  apply (@Sorted_merge_sort _ PeerSelector.pair_le _ pair_le_total).
Qed.

Lemma permute_Permutation c key :
  PeerSelector.permute score c key ≡ₚ PeerSelector.connections c.
Proof.
  unfold PeerSelector.permute, PeerSelector.get_permuted_peers.
  rewrite merge_sort_Permutation, map_map. simpl. rewrite map_id. reflexivity.
Qed.

(** C4: the permutation is a function of the key and of the set of
    candidates alone.  Two clients whose candidates are the same up to the
    order in which they were inserted, wherever the clients live and
    whenever they were built, get the same sequence for the same key; the
    sequence lists exactly the candidates; and with no candidate it is
    empty. *)
Theorem permute_depends_on_candidate_set_only c1 c2 key :
  PeerSelector.connections c1 ≡ₚ PeerSelector.connections c2 ->
  PeerSelector.permute score c1 key = PeerSelector.permute score c2 key /\
  PeerSelector.permute score c1 key ≡ₚ PeerSelector.connections c1 /\
  (PeerSelector.connections c1 = [] -> PeerSelector.permute score c1 key = []).
Proof.
  intros Hperm. split; [|split; [apply permute_Permutation|]].
  - unfold PeerSelector.permute. f_equal.
    apply (@Sorted_unique _ PeerSelector.pair_le pair_le_trans pair_le_antisym);
      try apply get_permuted_peers_sorted.
    unfold PeerSelector.get_permuted_peers. rewrite !merge_sort_Permutation.
    apply Permutation_map, Hperm.
  - intros Hnil. unfold PeerSelector.permute, PeerSelector.get_permuted_peers.
    rewrite Hnil. reflexivity.
Qed.
End PeerSelectorFacts.

(** ** More on the calls: what goes out, and what malformed input does *)

Section CallFacts.
Context `{!Hyperlink, !Cbor2, !HttpCommon, !StorageCommon, !Treq}.

Lemma get_version_sends self w :
  get_version self w = answered decoded_body (get_version_request self) w.
Proof.
  rewrite answered_run. unfold get_version.
  erewrite bind_run; cycle 1.
  { rewrite _request_bare. apply treq_request_run. }
  fold (get_version_request self).
  destruct (fst (handle (get_version_request self) (net w))) as [response|e];
    [|reflexivity].
  rewrite (bind_run _ _ _ _ _ (_decode_cbor_run _ _)).
  destruct (decoded_body response); reflexivity.
Qed.

Lemma one_request_at_most_once {A} (call : M A) post :
  one_request call post -> sends_at_most_once call.
Proof.
  intros [[e Hraise] | [req Hsend]]; [left; exists e; exact Hraise|].
  right. exists req. intros w. rewrite Hsend, answered_run. split; [reflexivity|].
  intros e He. cbn [fst]. rewrite He. reflexivity.
Qed.

(** X1: [get_version] sends one GET for [/v1/version] with the bearer
    header alone and no body.  Every status from 200 to 299 is accepted:
    the result is the decoded body, or [CBORDecodeError] when the body is
    not CBOR.  Status 199, 300 and every other one raise
    [ClientException] with the status and the reason phrase, whatever the
    body holds; a failure of the transport is passed on. *)
Theorem get_version_accepts_any_2xx self w :
  let req := {| method := "GET";
                url := click (_base_url self) "/v1/version";
                headers := {[ "authorization" := [swissnum_auth_header (_swissnum self)] ]};
                data := None |} in
  snd (get_version self w)
  = {| sent := (sent w ++ [req])%list; net := snd (handle req (net w)) |} /\
  (forall response,
      fst (handle req (net w)) = Ok response ->
      (200 <= code response <= 299 ->
       forall body,
         content response = Ok body ->
         fst (get_version self w)
         = match loads body with
           | Some v => Ok v
           | None => Raise CBORDecodeError
           end) /\
      (code response <= 199 \/ 300 <= code response ->
       fst (get_version self w)
       = Raise (ClientException (code response) (Some (phrase response))))) /\
  (forall e, fst (handle req (net w)) = Raise e -> fst (get_version self w) = Raise e).
Proof.
  intros req. rewrite get_version_sends, answered_run.
  change (get_version_request self) with req. cbn [fst snd].
  split; [reflexivity|]. split.
  - intros response ->. unfold decoded_body. split.
    + intros Hcode body Hbody.
      destruct (Z.ltb_spec 199 (code response)); [|lia].
      destruct (Z.ltb_spec (code response) 300); [|lia].
      cbn [andb]. rewrite Hbody. reflexivity.
    + intros Hcode.
      destruct (Z.ltb_spec 199 (code response));
        destruct (Z.ltb_spec (code response) 300); try reflexivity; exfalso; lia.
  - intros e ->. reflexivity.
Qed.

(** X2: no call of the client sends twice.  Each of [get_version],
    [create], [write_share_chunk], [read_share_chunk] and [list_shares]
    either raises before sending and leaves the world untouched, or sends
    exactly one request, which depends on the arguments and not on the
    world it is sent in, and hands a failure of the transport back to the
    caller instead of trying again. *)
Theorem calls_send_at_most_once
    self si share_numbers allocated_size up renew cancel share offset chunk length :
  sends_at_most_once (get_version self) /\
  sends_at_most_once (create self si share_numbers allocated_size up renew cancel) /\
  sends_at_most_once (write_share_chunk self si share up offset chunk) /\
  sends_at_most_once (read_share_chunk self si share offset length) /\
  sends_at_most_once (list_shares self si).
Proof.
  repeat split.
  - apply one_request_at_most_once with (post := decoded_body).
    right. exists (get_version_request self). apply get_version_sends.
  - eapply one_request_at_most_once, create_one_request.
  - eapply one_request_at_most_once, write_share_chunk_one_request.
  - eapply one_request_at_most_once, read_share_chunk_one_request.
  - eapply one_request_at_most_once, list_shares_one_request.
Qed.

(** *** Failing before anything is sent *)

Lemma write_share_chunk_bad_index self si share up offset chunk e w :
  _encode_si si = Raise e ->
  write_share_chunk self si share up offset chunk w = (Raise e, w).
Proof.
  intros Henc. unfold write_share_chunk.
  rewrite (bind_run _ _ _ _ _ (lift_run _ _)), Henc. reflexivity.
Qed.

Lemma write_share_chunk_bad_range self si enc share up offset chunk e w :
  _encode_si si = Ok enc ->
  ContentRange_new "bytes" offset (offset + len chunk) = Raise e ->
  write_share_chunk self si share up offset chunk w = (Raise e, w).
Proof.
  intros Henc Hcr. unfold write_share_chunk.
  rewrite (bind_run _ _ _ _ _ (lift_run _ _)), Henc.
  rewrite (bind_run _ _ _ _ _ (lift_run _ _)), Hcr. reflexivity.
Qed.

Lemma write_share_chunk_bad_tag self si enc share up offset chunk w :
  _encode_si si = Ok enc -> 0 <= offset -> 0 < len chunk ->
  is_ascii (Secrets_value UPLOAD) = false ->
  write_share_chunk self si share up offset chunk w = (Raise UnicodeError, w).
Proof.
  intros Henc Ho Hl Hascii. unfold write_share_chunk.
  rewrite (bind_run _ _ _ _ _ (lift_run _ _)), Henc.
  rewrite (bind_run _ _ _ _ _ (lift_run _ _)), ContentRange_new_ok by lia.
  unfold _request. cbn [_request_secrets]. unfold encode_ascii. rewrite Hascii.
  reflexivity.
Qed.

Lemma len_empty chunk : len chunk <= 0 -> chunk = "".
Proof. destruct chunk; [reflexivity|]. unfold len. simpl String.length. lia. Qed.

Lemma nothing_sent {A} (r : Result A) w req :
  sent (snd (r, w)) = (sent w ++ [req])%list -> False.
Proof.
  simpl. intros Hsent. apply (f_equal length) in Hsent.
  rewrite length_app in Hsent. simpl in Hsent. lia.
Qed.

(** What was sent by [write_share_chunk] tells what it was called with. *)
Lemma write_share_chunk_sent_inv self si share up offset chunk w req :
  sent (snd (write_share_chunk self si share up offset chunk w)) = (sent w ++ [req])%list ->
  exists enc,
    _encode_si si = Ok enc /\ 0 <= offset /\ 0 < len chunk /\
    is_ascii (Secrets_value UPLOAD) = true /\
    req = write_share_chunk_request self enc share up offset chunk.
Proof.
  intros Hsent.
  destruct (_encode_si si) as [enc|e] eqn:Henc.
  2:{ rewrite (write_share_chunk_bad_index _ _ _ _ _ _ _ _ Henc) in Hsent.
      destruct (nothing_sent _ _ _ Hsent). }
  destruct (ContentRange_new "bytes" offset (offset + len chunk)) as [cr|e] eqn:Hcr.
  2:{ rewrite (write_share_chunk_bad_range _ _ _ _ _ _ _ _ _ Henc Hcr) in Hsent.
      destruct (nothing_sent _ _ _ Hsent). }
  apply ContentRange_new_inv in Hcr as [Ho Hstop].
  assert (Hl : 0 < len chunk) by lia.
  destruct (is_ascii (Secrets_value UPLOAD)) eqn:Hascii.
  2:{ rewrite (write_share_chunk_bad_tag _ _ _ _ _ _ _ _ Henc Ho Hl Hascii) in Hsent.
      destruct (nothing_sent _ _ _ Hsent). }
  exists enc. repeat (split; [assumption || reflexivity|]).
  rewrite (write_share_chunk_sends _ _ _ _ _ _ _ _ Henc Ho Hl Hascii) in Hsent.
  rewrite answered_run in Hsent. simpl in Hsent.
  apply app_inj_tail in Hsent as [_ Hreq]. symmetry. exact Hreq.
Qed.

(** X3: the request of [write_share_chunk] is a PATCH of the share's URL
    whose body is the chunk and whose [Content-Range] names the bytes
    [offset, offset + len chunk) with an inclusive end and an unknown
    total.  It carries the bearer header and, under
    [X-Tahoe-Authorization], the upload secret and nothing else: no lease
    secret ever travels with a chunk.  These three headers are the only
    ones.  A request goes out only for a chunk that is not empty and an
    offset that is not negative. *)
Theorem write_share_chunk_request_content self si share up offset chunk w req :
  sent (snd (write_share_chunk self si share up offset chunk w)) = (sent w ++ [req])%list ->
  method req = "PATCH" /\ data req = Some chunk /\
  0 <= offset /\ chunk <> "" /\
  (exists enc,
      _encode_si si = Ok enc /\
      url req = click (_base_url self)
                  ("/v1/immutable/" ++ enc ++ "/" ++ str_of_int share)) /\
  getRawHeaders "Content-Range" (headers req)
  = Some [("bytes " ++ str_of_int offset ++ "-"
           ++ str_of_int (offset + len chunk - 1) ++ "/*")%string] /\
  getRawHeaders "Authorization" (headers req)
  = Some [swissnum_auth_header (_swissnum self)] /\
  getRawHeaders "X-Tahoe-Authorization" (headers req)
  = Some [(Secrets_value UPLOAD ++ " " ++ strip (b64encode up))%string] /\
  dom (headers req)
  = ({[ "content-range"; "authorization"; "x-tahoe-authorization" ]} : gset string).
Proof.
  intros Hsent.
  destruct (write_share_chunk_sent_inv _ _ _ _ _ _ _ _ Hsent)
    as [enc [Henc [Ho [Hl [Hascii ->]]]]].
  split; [reflexivity|]. split; [reflexivity|]. split; [assumption|].
  split; [intros ->; discriminate Hl|].
  split; [exists enc; split; [assumption | reflexivity]|].
  split; [reflexivity|]. split; [reflexivity|]. split; [reflexivity|].
  unfold write_share_chunk_request. cbn [headers].
  rewrite !dom_insert_L, dom_singleton_L. set_solver.
Qed.

(** X4: a chunk write with nothing to write or with a negative offset
    never reaches the server: building the [Content-Range] fails its
    assertion, the call raises [AssertionError] and the world is as
    before. *)
Theorem write_share_chunk_rejects_empty_chunk self si enc share up offset chunk w :
  _encode_si si = Ok enc ->
  offset < 0 \/ chunk = "" ->
  write_share_chunk self si share up offset chunk w = (Raise AssertionError, w).
Proof.
  intros Henc Hbad. apply (write_share_chunk_bad_range _ _ enc); [assumption|].
  unfold ContentRange_new, is_byte_range_valid.
  destruct Hbad as [Hneg | ->].
  - destruct (Z.leb_spec 0 offset); [lia | reflexivity].
  - unfold len. cbn [String.length Z.of_nat]. rewrite Z.add_0_r, Z.ltb_irrefl, andb_false_r.
    reflexivity.
Qed.

(** X5: a read of no bytes, of a negative number of bytes or from a
    negative offset never reaches the server: building the [Range] raises
    [ValueError] and the world is as before. *)
Theorem read_share_chunk_rejects_empty_range self si enc share offset length w :
  _encode_si si = Ok enc ->
  offset < 0 \/ length <= 0 ->
  read_share_chunk self si share offset length w = (Raise ValueError, w).
Proof.
  intros Henc Hbad. unfold read_share_chunk.
  rewrite (bind_run _ _ _ _ _ (lift_run _ _)), Henc.
  rewrite (bind_run _ _ _ _ _ (lift_run _ _)).
  replace (Range_new "bytes" [(offset, offset + length)]) with (Raise (A := Range) ValueError);
    [reflexivity|].
  unfold Range_new. cbn [forallb fst snd].
  destruct (Z.ltb_spec offset 0); [reflexivity|].
  destruct (Z.leb_spec (offset + length) offset); [reflexivity | lia].
Qed.

(** What was sent by [create] tells what it was called with. *)
Lemma create_sent_inv self si share_numbers allocated_size up renew cancel w req :
  sent (snd (create self si share_numbers allocated_size up renew cancel w))
  = (sent w ++ [req])%list ->
  (exists enc,
      _encode_si si = Ok enc /\
      req = create_request self enc share_numbers allocated_size up renew cancel) /\
  forall w', create self si share_numbers allocated_size up renew cancel w'
             = answered created_of req w'.
Proof.
  intros Hsent.
  pose proof (one_request_sent _ _ _ _
                (create_one_request self si share_numbers allocated_size up renew cancel)
                Hsent) as Hrun.
  split; [|exact Hrun].
  destruct (_encode_si si) as [enc|e] eqn:Henc.
  2:{ exfalso. unfold create in Hsent.
      rewrite (bind_run _ _ _ _ _ (lift_run _ _)), Henc in Hsent.
      exact (nothing_sent _ _ _ Hsent). }
  exists enc. split; [reflexivity|].
  destruct (is_ascii (Secrets_value LEASE_RENEW)) eqn:Hr.
  2:{ exfalso. unfold create in Hsent.
      rewrite (bind_run _ _ _ _ _ (lift_run _ _)), Henc in Hsent.
      unfold _request in Hsent. cbn [_request_secrets] in Hsent.
      unfold encode_ascii in Hsent. rewrite Hr in Hsent.
      exact (nothing_sent _ _ _ Hsent). }
  destruct (is_ascii (Secrets_value LEASE_CANCEL)) eqn:Hc.
  2:{ exfalso. unfold create in Hsent.
      rewrite (bind_run _ _ _ _ _ (lift_run _ _)), Henc in Hsent.
      unfold _request in Hsent. cbn [_request_secrets] in Hsent.
      unfold encode_ascii in Hsent. rewrite Hr, Hc in Hsent.
      exact (nothing_sent _ _ _ Hsent). }
  destruct (is_ascii (Secrets_value UPLOAD)) eqn:Hu.
  2:{ exfalso. unfold create in Hsent.
      rewrite (bind_run _ _ _ _ _ (lift_run _ _)), Henc in Hsent.
      unfold _request in Hsent. cbn [_request_secrets] in Hsent.
      unfold encode_ascii in Hsent. rewrite Hr, Hc, Hu in Hsent.
      exact (nothing_sent _ _ _ Hsent). }
  rewrite (create_sends _ _ _ _ _ _ _ _ _ Henc Hr Hc Hu), answered_run in Hsent.
  simpl in Hsent. apply app_inj_tail in Hsent as [_ Hreq]. symmetry. exact Hreq.
Qed.

(** X6: the request of [create] declares its body as CBOR, and its
    headers are the content type, the bearer [Authorization] and the
    secrets, no others. *)
Theorem create_request_declares_cbor
    self si share_numbers allocated_size up renew cancel w req :
  sent (snd (create self si share_numbers allocated_size up renew cancel w))
  = (sent w ++ [req])%list ->
  getRawHeaders "Content-Type" (headers req) = Some ["application/cbor"] /\
  dom (headers req)
  = ({[ "content-type"; "authorization"; "x-tahoe-authorization" ]} : gset string).
Proof.
  intros Hsent. destruct (create_sent_inv _ _ _ _ _ _ _ _ _ Hsent) as [[enc [_ ->]] _].
  split; [reflexivity|].
  unfold create_request. cbn [headers].
  rewrite !dom_insert_L, dom_singleton_L. set_solver.
Qed.

(** X7: a success status does not make [create] succeed.  When the body
    of a 2xx response is not CBOR the call raises [CBORDecodeError]; when
    it decodes to something that is not a map, [TypeError]; when the map
    lacks [already-have], [KeyError] for that key, whether or not
    [allocated] is there; and when only [allocated] is missing,
    [KeyError] for [allocated]. *)
Theorem create_malformed_success_body
    self si share_numbers allocated_size up renew cancel w req response body :
  sent (snd (create self si share_numbers allocated_size up renew cancel w))
  = (sent w ++ [req])%list ->
  fst (handle req (net w)) = Ok response ->
  200 <= code response <= 299 ->
  content response = Ok body ->
  let result := fst (create self si share_numbers allocated_size up renew cancel w) in
  (loads body = None -> result = Raise CBORDecodeError) /\
  (forall decoded,
      loads body = Some decoded ->
      (forall items, decoded <> VDict items) -> result = Raise TypeError) /\
  (forall items,
      loads body = Some (VDict items) ->
      dict_lookup "already-have" items = None ->
      result = Raise (KeyError "already-have")) /\
  (forall items have,
      loads body = Some (VDict items) ->
      dict_lookup "already-have" items = Some have ->
      dict_lookup "allocated" items = None ->
      result = Raise (KeyError "allocated")).
Proof.
  intros Hsent Hanswer Hcode Hbody result. subst result.
  destruct (create_sent_inv _ _ _ _ _ _ _ _ _ Hsent) as [_ Hrun].
  rewrite Hrun, answered_run. cbn [fst]. rewrite Hanswer.
  unfold created_of, decoded_body.
  destruct (Z.ltb_spec 199 (code response)); [|lia].
  destruct (Z.ltb_spec (code response) 300); [|lia].
  cbn [andb]. rewrite Hbody. cbn [bindR].
  split; [|split; [|split]].
  - intros ->. reflexivity.
  - intros decoded -> Hnot. cbn [bindR].
    destruct decoded; try reflexivity. destruct (Hnot items eq_refl).
  - intros items -> Hhave. cbn [bindR getitem]. rewrite Hhave. reflexivity.
  - intros items have -> Hhave Halloc. cbn [bindR getitem]. rewrite Hhave. cbn [bindR].
    rewrite Halloc. reflexivity.
Qed.

(** X8: [write_share_chunk] looks at the status before it looks at the
    body.  A status other than 200 and 201 raises [ClientException]
    even when the body cannot be read; with 200 or 201 a body that cannot
    be read passes its failure on, a body that is not CBOR raises
    [CBORDecodeError], a decoded map without [required] raises
    [KeyError], and an entry of [required] without [begin] raises
    [KeyError] for [begin]: in none of these cases is an
    [UploadProgress] returned. *)
Theorem write_share_chunk_malformed_body self si share up offset chunk w req response :
  sent (snd (write_share_chunk self si share up offset chunk w)) = (sent w ++ [req])%list ->
  fst (handle req (net w)) = Ok response ->
  let result := fst (write_share_chunk self si share up offset chunk w) in
  (code response <> 200 -> code response <> 201 ->
   forall failure, content response = Raise failure ->
   result = Raise (ClientException (code response) None)) /\
  (code response = 200 \/ code response = 201 ->
   (forall failure, content response = Raise failure -> result = Raise failure) /\
   (forall body,
       content response = Ok body ->
       (loads body = None -> result = Raise CBORDecodeError) /\
       (forall items,
           loads body = Some (VDict items) -> dict_lookup "required" items = None ->
           result = Raise (KeyError "required")) /\
       (forall items fields rest,
           loads body = Some (VDict items) ->
           dict_lookup "required" items = Some (VList (VDict fields :: rest)) ->
           dict_lookup "begin" fields = None ->
           result = Raise (KeyError "begin")))).
Proof.
  intros Hsent Hanswer result. subst result.
  rewrite (one_request_sent _ _ _ _
             (write_share_chunk_one_request self si share up offset chunk) Hsent).
  rewrite answered_run. cbn [fst]. rewrite Hanswer. unfold progress_of. split.
  - intros H200 H201 failure _.
    destruct (Z.eqb_spec (code response) 200); [contradiction|].
    destruct (Z.eqb_spec (code response) 201); [contradiction|]. reflexivity.
  - intros Hcode.
    replace (if code response =? 200 then Ok false
             else if code response =? 201 then Ok true
             else Raise (ClientException (code response) None))
      with (Ok (A := bool) (code response =? 201))
      by (destruct Hcode as [-> | ->]; reflexivity).
    unfold decoded_body.
    replace ((199 <? code response) && (code response <? 300)) with true
      by (destruct Hcode as [-> | ->]; reflexivity).
    cbn [bindR]. split.
    + intros failure ->. reflexivity.
    + intros body ->. cbn [bindR]. split; [|split].
      * intros ->. reflexivity.
      * intros items -> Hmissing. cbn [bindR getitem]. rewrite Hmissing. reflexivity.
      * intros items fields rest -> Hreq Hbegin. cbn [bindR getitem]. rewrite Hreq.
        cbn [bindR iterate set_required getitem]. rewrite Hbegin. reflexivity.
Qed.

(** X9: what [list_shares] makes of a 200 response follows the shape of
    the decoded body.  A list or a set of hashable items gives the set
    with exactly these members; a map gives the set of its keys; [None],
    a boolean or an integer is not iterable and raises [TypeError]; and
    so does a list that holds a list, a set or a map. *)
Theorem list_shares_body_shapes self si w req response body decoded :
  sent (snd (list_shares self si w)) = (sent w ++ [req])%list ->
  fst (handle req (net w)) = Ok response ->
  code response = 200 -> content response = Ok body -> loads body = Some decoded ->
  let result := fst (list_shares self si w) in
  (forall items,
      decoded = VList items \/ decoded = VSet items ->
      forallb hashable items = true ->
      exists shares, result = Ok shares /\ forall x, x ∈ shares <-> In x items) /\
  (forall items,
      decoded = VDict items ->
      forallb hashable (map fst items) = true ->
      exists shares, result = Ok shares /\ forall x, x ∈ shares <-> In x (map fst items)) /\
  (decoded = VNone \/ (exists b, decoded = VBool b) \/ (exists z, decoded = VInt z) ->
   result = Raise TypeError) /\
  (forall items x,
      decoded = VList items -> In x items -> hashable x = false ->
      result = Raise TypeError).
Proof.
  intros Hsent Hanswer H200 Hbody Hloads result. subst result.
  rewrite (one_request_sent _ _ _ _ (list_shares_one_request self si) Hsent).
  rewrite answered_run. cbn [fst]. rewrite Hanswer. unfold shares_of, decoded_body.
  rewrite H200, Hbody. cbn [Z.eqb Z.ltb Z.compare Pos.compare Pos.compare_cont andb Pos.eqb bindR].
  rewrite Hloads. cbn [bindR]. unfold set_of.
  split; [|split; [|split]].
  - intros items [-> | ->] Hhash; cbn [iterate bindR]; rewrite Hhash;
      exists (Listset items); (split; [reflexivity|]); intros x;
      unfold elem_of, listset_elem_of; cbn [listset_car]; apply list_elem_of_In.
  - intros items -> Hhash. cbn [iterate bindR]. rewrite Hhash.
    exists (Listset (map fst items)). split; [reflexivity|]. intros x.
    unfold elem_of, listset_elem_of; cbn [listset_car]. apply list_elem_of_In.
  - intros [-> | [[b ->] | [z ->]]]; reflexivity.
  - intros items x -> Hin Hx. cbn [iterate bindR].
    replace (forallb hashable items) with false; [reflexivity|].
    symmetry. apply not_true_is_false. intros Hall.
    rewrite forallb_forall in Hall. rewrite (Hall x Hin) in Hx. discriminate.
Qed.
End CallFacts.

Section FurlFacts.
(** X10: the four ways [from_furl] ends.  It fails its assertions exactly
    when the fragment is not ["v=1"] or the scheme is not ["pb"]; past
    them it raises [IndexError] exactly for an empty path,
    [UnicodeError] exactly when the first segment or the user is not
    ASCII, and returns [None] exactly when all of this is in order. *)
Theorem from_furl_outcomes furl :
  (from_furl furl = Raise AssertionError
   <-> fragment furl <> "v=1" \/ scheme furl <> "pb") /\
  (from_furl furl = Raise IndexError
   <-> fragment furl = "v=1" /\ scheme furl = "pb" /\ path furl = []) /\
  (from_furl furl = Raise UnicodeError
   <-> fragment furl = "v=1" /\ scheme furl = "pb" /\
       exists first rest,
         path furl = first :: rest /\
         (is_ascii first = false \/ is_ascii (user furl) = false)) /\
  (from_furl furl = Ok None
   <-> fragment furl = "v=1" /\ scheme furl = "pb" /\
       exists first rest,
         path furl = first :: rest /\ is_ascii first = true /\ is_ascii (user furl) = true).
Proof.
  unfold from_furl, assert, encode_ascii.
  destruct (String.eqb_spec (fragment furl) "v=1") as [Hf|Hf]; cbn [bindR].
  2:{ split; [|split; [|split]]; split; try discriminate; try tauto;
        try (intros [E _]; contradiction). }
  destruct (String.eqb_spec (scheme furl) "pb") as [Hs|Hs]; cbn [bindR].
  2:{ split; [|split; [|split]]; split; try discriminate; try tauto;
        try (intros [_ [E _]]; contradiction). }
  destruct (path furl) as [|first rest]; cbn [bindR].
  { split; [|split; [|split]]; split; try discriminate; try tauto.
    - intros [_ [_ [f [r [E _]]]]]. discriminate.
    - intros [_ [_ [f [r [E _]]]]]. discriminate. }
  destruct (is_ascii first) eqn:Hfirst; cbn [bindR];
    [destruct (is_ascii (user furl)) eqn:Huser; cbn [bindR]|].
  all: split; [|split; [|split]]; split; try discriminate; try tauto.
  all: try (intros [_ [_ E]]; discriminate).
  all: try (intros [_ [_ [f [r [E Hx]]]]]; injection E as <- <-; intuition congruence).
  all: intros _; split; [assumption|]; split; [assumption|]; exists first, rest; auto.
Qed.
End FurlFacts.

(** ** The pid file *)

Section PidFacts.
Context `{!Pid.Builtins}.
Local Open Scope list_scope.

Lemma length_append (s t : string) :
  String.length (s ++ t)%string = (String.length s + String.length t)%nat.
Proof. induction s as [|c s IH]; simpl; [reflexivity | rewrite IH; reflexivity]. Qed.

Lemma append_inj_r (s1 s2 t : string) : (s1 ++ t = s2 ++ t)%string -> s1 = s2.
Proof.
  revert s2. induction s1 as [|c s1 IH]; intros [|d s2] Heq.
  - reflexivity.
  - apply (f_equal String.length) in Heq. cbn [String.length String.append] in Heq.
    rewrite !length_append in Heq. simpl in Heq. lia.
  - apply (f_equal String.length) in Heq. cbn [String.length String.append] in Heq.
    rewrite !length_append in Heq. simpl in Heq. lia.
  - cbn [String.append] in Heq. injection Heq as -> Heq. f_equal. apply IH, Heq.
Qed.

(** X11: the lock of a pid file is a file of its own in the same
    directory: its path is never the path of the pid file, so taking the
    lock cannot clobber the record, and two pid files share a lock only
    if they are the same file. *)
Theorem lock_path_is_beside_the_pidfile (pidfile : Pid.FilePath) :
  Pid.path (Pid._pidfile_to_lockpath pidfile) <> Pid.path pidfile /\
  Pid.dirname (Pid._pidfile_to_lockpath pidfile) = Pid.dirname pidfile /\
  (forall other,
      Pid._pidfile_to_lockpath pidfile = Pid._pidfile_to_lockpath other ->
      pidfile = other).
Proof.
  split; [|split; [reflexivity|]].
  - unfold Pid.path, Pid._pidfile_to_lockpath, Pid.sibling. simpl. intros Heq.
    apply String.app_inj in Heq. apply String.app_inj in Heq.
    apply (f_equal String.length) in Heq. rewrite length_append in Heq.
    simpl in Heq. lia.
  - intros [d b]. destruct pidfile as [d' b'].
    unfold Pid._pidfile_to_lockpath, Pid.sibling. simpl. intros Heq.
    injection Heq as -> Heq. apply append_inj_r in Heq. subst. reflexivity.
Qed.

Lemma lock_path_differs (pidfile : Pid.FilePath) :
  Pid.path (Pid._pidfile_to_lockpath pidfile) <> Pid.path pidfile.
Proof.
  unfold Pid.path, Pid._pidfile_to_lockpath, Pid.sibling. simpl. intros Heq.
  apply String.app_inj in Heq. apply String.app_inj in Heq.
  apply (f_equal String.length) in Heq. rewrite length_append in Heq.
  simpl in Heq. lia.
Qed.

(** Taking the lock does not touch the pid file. *)
Lemma lookup_open_lock pidfile os :
  Pid.files (Pid.open_lock (Pid._pidfile_to_lockpath pidfile) os) !! Pid.path pidfile
  = Pid.files os !! Pid.path pidfile.
Proof. apply lookup_insert_ne, lock_path_differs. Qed.

(** Taking the lock once more changes nothing: the lock file is there and
    empty already. *)
Lemma open_lock_again lock_path os :
  Pid.files os !! Pid.path lock_path = Some EmptyString ->
  Pid.open_lock lock_path os = os.
Proof.
  intros Hthere. destruct os as [fs held out pid]. unfold Pid.open_lock. simpl in *.
  rewrite insert_id by assumption. reflexivity.
Qed.

Ltac pid_cases :=
  unfold Pid.check_pid_process, Pid.check_locked, Pid.check_existing in *;
  rewrite ?lookup_open_lock in *;
  repeat (case_decide || case_match || simplify_eq/=).

Lemma check_pid_process_done pidfile find_process os os' :
  Pid.check_pid_process pidfile find_process os = (Pid.Done tt, os') ->
  (Pid.path (Pid._pidfile_to_lockpath pidfile) ∉ Pid.locked os) /\
  exists process,
    find_process (Pid.getpid os) = Pid.Done process /\
    Pid.files os'
    = <[Pid.path pidfile :=
          Pid.encode_utf8 (Pid.record (Pid.getpid os) (Pid.create_time process))]>
        (<[Pid.path (Pid._pidfile_to_lockpath pidfile) := EmptyString]> (Pid.files os)) /\
    Pid.locked os' = Pid.locked os /\ Pid.getpid os' = Pid.getpid os /\
    exists printed, Pid.stdout os' = Pid.stdout os ++ printed.
Proof.
  intros Hrun. pid_cases.
  all: (split; [assumption|]; eexists; split; [eassumption|]; simpl;
        rewrite ?insert_delete_eq; repeat (split; [reflexivity|])).
  - eexists. reflexivity.
  - exists []. rewrite app_nil_r. reflexivity.
Qed.

Lemma check_pid_process_running pidfile find_process os raw decoded pid starttime process :
  Pid.path (Pid._pidfile_to_lockpath pidfile) ∉ Pid.locked os ->
  Pid.files os !! Pid.path pidfile = Some raw ->
  Pid.decode_utf8 raw = Some decoded ->
  Pid.read_fields (Pid.strip decoded) = Some (pid, starttime) ->
  find_process pid = Pid.Done process ->
  Pid.check_pid_process pidfile find_process os
  = (Pid.Raised (Pid.ProcessInTheWay
                   ("A process is already running as PID " ++ str_of_int pid)%string),
     Pid.open_lock (Pid._pidfile_to_lockpath pidfile) os).
Proof.
  intros Hfree Hfile Hdecode Hfields Hfound.
  unfold Pid.check_pid_process, Pid.check_locked, Pid.check_existing.
  rewrite decide_False by assumption. rewrite lookup_open_lock, Hfile, Hdecode, Hfields, Hfound.
  reflexivity.
Qed.

(** X12: when [check_pid_process] returns, the lock was free, this
    process was found, and the pid file holds the record of this process:
    its pid and the time it was created.  Beside it lies the lock file,
    empty, which taking the lock created or emptied.  No other file has
    changed, whether a stale pid file was replaced or none was there. *)
Theorem check_pid_process_writes_own_record pidfile find_process os os' :
  Pid.check_pid_process pidfile find_process os = (Pid.Done tt, os') ->
  (Pid.path (Pid._pidfile_to_lockpath pidfile) ∉ Pid.locked os) /\
  exists process,
    find_process (Pid.getpid os) = Pid.Done process /\
    Pid.files os'
    = <[Pid.path pidfile :=
          Pid.encode_utf8 (Pid.record (Pid.getpid os) (Pid.create_time process))]>
        (<[Pid.path (Pid._pidfile_to_lockpath pidfile) := EmptyString]> (Pid.files os)) /\
    Pid.locked os' = Pid.locked os /\ Pid.getpid os' = Pid.getpid os.
Proof.
  intros Hrun.
  destruct (check_pid_process_done _ _ _ _ Hrun)
    as [Hfree [process [Hown [Hfiles [Hlocked [Hpid _]]]]]].
  split; [assumption|]. exists process. auto.
Qed.

(** X13: a check that raises has taken the lock or tried to, so the lock
    file is there and empty; beyond that it has changed nothing, with one
    exception: when the pid file was stale it has already been removed,
    and reported, by the time the look-up of this very process fails. *)
Theorem check_pid_process_failure_effects pidfile find_process os os' e :
  Pid.check_pid_process pidfile find_process os = (Pid.Raised e, os') ->
  os' = Pid.open_lock (Pid._pidfile_to_lockpath pidfile) os \/
  (exists raw decoded pid starttime gone,
      Pid.files os !! Pid.path pidfile = Some raw /\
      Pid.decode_utf8 raw = Some decoded /\
      Pid.read_fields (Pid.strip decoded) = Some (pid, starttime) /\
      find_process pid = Pid.Raised (Pid.NoSuchProcess gone) /\
      (exists failure, find_process (Pid.getpid os) = Pid.Raised failure) /\
      Pid.files os'
      = delete (Pid.path pidfile)
          (<[Pid.path (Pid._pidfile_to_lockpath pidfile) := EmptyString]> (Pid.files os)) /\
      Pid.locked os' = Pid.locked os /\ Pid.getpid os' = Pid.getpid os /\
      Pid.stdout os'
      = Pid.stdout os ++
        [("'" ++ Pid.path pidfile ++ "' refers to " ++ str_of_int pid
          ++ " that isn't running")%string]).
Proof.
  intros Hrun. pid_cases; try (left; reflexivity).
  all: (right; do 5 eexists; repeat (split; [eassumption || reflexivity|]);
        (split; [eexists; eassumption|]); repeat (split; [reflexivity|]); reflexivity).
Qed.

(** X14: another instance is refused, and the pid file is not touched:
    the state afterwards is the state before with the lock file created
    or emptied.  While another process holds the lock the check raises
    [ProcessInTheWay] without reading the pid file or looking up any
    process; and with the lock free, a pid file that names a running
    process raises [ProcessInTheWay] with that pid. *)
Theorem check_pid_process_refuses_second_instance pidfile find_process os :
  (Pid.path (Pid._pidfile_to_lockpath pidfile) ∈ Pid.locked os ->
   Pid.check_pid_process pidfile find_process os
   = (Pid.Raised (Pid.ProcessInTheWay
                    ("Another process is still locking " ++ Pid.path pidfile)%string),
      Pid.open_lock (Pid._pidfile_to_lockpath pidfile) os)) /\
  (Pid.path (Pid._pidfile_to_lockpath pidfile) ∉ Pid.locked os ->
   forall raw decoded pid starttime process,
     Pid.files os !! Pid.path pidfile = Some raw ->
     Pid.decode_utf8 raw = Some decoded ->
     Pid.read_fields (Pid.strip decoded) = Some (pid, starttime) ->
     find_process pid = Pid.Done process ->
     Pid.check_pid_process pidfile find_process os
     = (Pid.Raised (Pid.ProcessInTheWay
                      ("A process is already running as PID " ++ str_of_int pid)%string),
        Pid.open_lock (Pid._pidfile_to_lockpath pidfile) os)) /\
  Pid.files (Pid.open_lock (Pid._pidfile_to_lockpath pidfile) os) !! Pid.path pidfile
  = Pid.files os !! Pid.path pidfile.
Proof.
  split; [|split].
  - intros Hheld. unfold Pid.check_pid_process. rewrite decide_True by assumption.
    reflexivity.
  - intros Hfree raw decoded pid starttime process. apply check_pid_process_running, Hfree.
  - apply lookup_open_lock.
Qed.

Lemma read_fields_wrong_count content :
  length (Pid.split content) <> 2%nat -> Pid.read_fields content = None.
Proof.
  unfold Pid.read_fields. destruct (Pid.split content) as [|a [|b [|c rest]]]; simpl;
    intros Hlen; try reflexivity. lia.
Qed.

(** X15: a pid file that cannot be understood is never overwritten.  With
    the lock free, bytes that are not UTF-8 raise [UnicodeDecodeError],
    since decoding sits outside the [try]; text that does not consist of
    exactly two fields, or whose first field is no integer, or whose
    second is no float, raises [InvalidPidFile].  In each case the pid
    file keeps its bytes, and so does all else but the lock file, which
    taking the lock has created or emptied. *)
Theorem check_pid_process_invalid_pidfile pidfile find_process os raw :
  Pid.path (Pid._pidfile_to_lockpath pidfile) ∉ Pid.locked os ->
  Pid.files os !! Pid.path pidfile = Some raw ->
  let after := Pid.open_lock (Pid._pidfile_to_lockpath pidfile) os in
  Pid.files after !! Pid.path pidfile = Some raw /\
  (Pid.decode_utf8 raw = None ->
   Pid.check_pid_process pidfile find_process os
   = (Pid.Raised Pid.UnicodeDecodeError, after)) /\
  (forall decoded,
      Pid.decode_utf8 raw = Some decoded ->
      length (Pid.split (Pid.strip decoded)) <> 2%nat \/
      (exists first second,
          Pid.split (Pid.strip decoded) = [first; second] /\
          (Pid.int_of_str first = None \/ Pid.float_of_str second = None)) ->
      Pid.check_pid_process pidfile find_process os
      = (Pid.Raised (Pid.InvalidPidFile pidfile), after)).
Proof.
  intros Hfree Hfile after.
  split; [unfold after; rewrite lookup_open_lock; exact Hfile|].
  unfold Pid.check_pid_process, Pid.check_locked, Pid.check_existing.
  rewrite decide_False by assumption. rewrite lookup_open_lock, Hfile. split.
  - intros ->. reflexivity.
  - intros decoded -> Hbad.
    replace (Pid.read_fields (Pid.strip decoded)) with (@None (Z * Pid.float));
      [reflexivity|].
    symmetry. destruct Hbad as [Hlen | [first [second [Hsplit Hfield]]]].
    + apply read_fields_wrong_count, Hlen.
    + unfold Pid.read_fields. rewrite Hsplit.
      destruct Hfield as [-> | Hfloat]; [reflexivity|].
      destruct (Pid.int_of_str first); [rewrite Hfloat|]; reflexivity.
Qed.

(** X16: a stale pid file, one that names a pid at which nothing runs, is
    reported on standard output and replaced by the record of this
    process.  If this very process cannot be looked up the call raises
    after the stale file has been removed, and there is no pid file
    left. *)
Theorem check_pid_process_replaces_stale_pidfile
    pidfile find_process os raw decoded pid starttime gone :
  Pid.path (Pid._pidfile_to_lockpath pidfile) ∉ Pid.locked os ->
  Pid.files os !! Pid.path pidfile = Some raw ->
  Pid.decode_utf8 raw = Some decoded ->
  Pid.read_fields (Pid.strip decoded) = Some (pid, starttime) ->
  find_process pid = Pid.Raised (Pid.NoSuchProcess gone) ->
  let report := ("'" ++ Pid.path pidfile ++ "' refers to " ++ str_of_int pid
                 ++ " that isn't running")%string in
  (forall process,
      find_process (Pid.getpid os) = Pid.Done process ->
      exists os',
        Pid.check_pid_process pidfile find_process os = (Pid.Done tt, os') /\
        Pid.files os' !! Pid.path pidfile
        = Some (Pid.encode_utf8 (Pid.record (Pid.getpid os) (Pid.create_time process))) /\
        Pid.stdout os' = Pid.stdout os ++ [report]) /\
  (forall failure,
      find_process (Pid.getpid os) = Pid.Raised failure ->
      failure <> Pid.Timeout ->
      exists os',
        Pid.check_pid_process pidfile find_process os = (Pid.Raised failure, os') /\
        Pid.files os' !! Pid.path pidfile = None /\
        Pid.stdout os' = Pid.stdout os ++ [report]).
Proof.
  intros Hfree Hfile Hdecode Hfields Hgone report.
  unfold Pid.check_pid_process, Pid.check_locked, Pid.check_existing.
  rewrite decide_False by assumption.
  rewrite lookup_open_lock, Hfile, Hdecode, Hfields, Hgone. split.
  - intros process Hown. cbn [Pid.getpid Pid.remove Pid.print Pid.open_lock]. rewrite Hown.
    eexists. split; [reflexivity|]. cbn [Pid.files Pid.stdout Pid.write].
    split; [apply lookup_insert_eq | reflexivity].
  - intros failure Hown Hnot. cbn [Pid.getpid Pid.remove Pid.print Pid.open_lock]. rewrite Hown.
    eexists. split; [destruct failure; try reflexivity; contradiction|].
    cbn [Pid.files Pid.stdout]. split; [apply lookup_delete_eq | reflexivity].
Qed.

(** *** Reading back what was written *)

Lemma split_from_word word t rest :
  Pid.no_space t -> Pid.split_from word (t ++ rest) = Pid.split_from (word ++ t) rest.
Proof.
  intros Ht. revert word. induction Ht as [|c t Hc _ IH]; intros word; simpl.
  - rewrite app_nil_r. reflexivity.
  - rewrite Hc, IH, <- app_assoc. reflexivity.
Qed.

Lemma split_two_fields (t1 t2 : list N) :
  t1 <> [] -> Pid.no_space t1 -> t2 <> [] -> Pid.no_space t2 ->
  Pid.split (t1 ++ [32%N] ++ t2) = [t1; t2].
Proof.
  intros Hn1 Hs1 Hn2 Hs2. unfold Pid.split.
  rewrite split_from_word by assumption. simpl.
  destruct t1 as [|c1 t1]; [contradiction|]. simpl.
  rewrite <- (app_nil_r t2) at 1. rewrite split_from_word by assumption. simpl.
  destruct t2; [contradiction | reflexivity].
Qed.

Lemma rstrip_space_end s c :
  Pid.is_space c = true -> Pid.rstrip (s ++ [c]) = Pid.rstrip s.
Proof.
  intros Hc. induction s as [|d s IH]; simpl; [rewrite Hc; reflexivity|].
  rewrite IH. reflexivity.
Qed.

Lemma rstrip_nonspace_end s c :
  Pid.is_space c = false -> Pid.rstrip (s ++ [c]) = s ++ [c].
Proof.
  intros Hc. induction s as [|d s IH]; simpl; [rewrite Hc; reflexivity|].
  rewrite IH. destruct (s ++ [c]) eqn:Hs; [|reflexivity].
  destruct s; discriminate.
Qed.

Lemma strip_record_text (t1 t2 : list N) :
  t1 <> [] -> Pid.no_space t1 -> t2 <> [] -> Pid.no_space t2 ->
  Pid.strip (t1 ++ [32%N] ++ t2 ++ [10%N]) = t1 ++ [32%N] ++ t2.
Proof.
  intros Hn1 Hs1 Hn2 Hs2. unfold Pid.strip.
  assert (Hl : Pid.lstrip (t1 ++ [32%N] ++ t2 ++ [10%N]) = t1 ++ [32%N] ++ t2 ++ [10%N]).
  { destruct t1 as [|c t1]; [contradiction|]. apply Forall_cons in Hs1 as [Hc _].
    simpl. rewrite Hc. reflexivity. }
  rewrite Hl.
  replace (t1 ++ [32%N] ++ t2 ++ [10%N]) with ((t1 ++ [32%N] ++ t2) ++ [10%N])
    by (rewrite <- !app_assoc; reflexivity).
  rewrite rstrip_space_end by reflexivity.
  destruct (exists_last Hn2) as [t2' [c ->]].
  apply Forall_app in Hs2 as [_ Hc]. apply Forall_cons in Hc as [Hc _].
  replace (t1 ++ [32%N] ++ t2' ++ [c]) with ((t1 ++ [32%N] ++ t2') ++ [c])
    by (rewrite <- !app_assoc; reflexivity).
  apply rstrip_nonspace_end, Hc.
Qed.

Lemma uint_text_no_space d :
  Pid.no_space (Pid.text_of_string (NilEmpty.string_of_uint d)).
Proof.
  induction d; simpl; constructor; (reflexivity || assumption).
Qed.

Lemma str_of_int_text n :
  Pid.text_of_string (str_of_int n) <> [] /\ Pid.no_space (Pid.text_of_string (str_of_int n)).
Proof.
  unfold str_of_int, NilZero.string_of_int.
  destruct (Z.to_int n) as [d|d]; unfold NilZero.string_of_uint.
  - destruct d; (split; [discriminate|]); try apply (uint_text_no_space (_ _));
      repeat constructor.
  - split; [discriminate|]. constructor; [reflexivity|].
    destruct d; try apply (uint_text_no_space (_ _)); repeat constructor.
Qed.

(** X17: the record that [check_pid_process] writes is one it
    understands.  Where the codec gives the written text back, [int] and
    [float] read the two fields and the float prints without white
    space, a second check by the same running process finds its own
    record and raises [ProcessInTheWay] with its own pid, leaving the
    file as it is. *)
Theorem check_pid_process_twice pidfile find_process os os' process :
  Pid.check_pid_process pidfile find_process os = (Pid.Done tt, os') ->
  find_process (Pid.getpid os) = Pid.Done process ->
  let mine := Pid.record (Pid.getpid os) (Pid.create_time process) in
  Pid.decode_utf8 (Pid.encode_utf8 mine) = Some mine ->
  Pid.int_of_str (Pid.text_of_string (str_of_int (Pid.getpid os))) = Some (Pid.getpid os) ->
  is_Some (Pid.float_of_str (Pid.str_of_float (Pid.create_time process))) ->
  Pid.str_of_float (Pid.create_time process) <> [] ->
  Pid.no_space (Pid.str_of_float (Pid.create_time process)) ->
  Pid.check_pid_process pidfile find_process os'
  = (Pid.Raised (Pid.ProcessInTheWay
                   ("A process is already running as PID "
                    ++ str_of_int (Pid.getpid os))%string), os').
Proof.
  intros Hrun Hown mine Hcodec Hint [starttime Hfloat] Hnonempty Hnospace.
  destruct (check_pid_process_done _ _ _ _ Hrun)
    as [Hfree [process' [Hown' [Hfiles [Hlocked [Hpid _]]]]]].
  rewrite Hown in Hown'. injection Hown' as <-.
  destruct (str_of_int_text (Pid.getpid os)) as [Hn1 Hs1].
  rewrite <- (open_lock_again (Pid._pidfile_to_lockpath pidfile) os') at 2.
  2:{ rewrite Hfiles, lookup_insert_ne by (symmetry; apply lock_path_differs).
      apply lookup_insert_eq. }
  apply (check_pid_process_running pidfile find_process os'
           (Pid.encode_utf8 mine) mine (Pid.getpid os) starttime process).
  - rewrite Hlocked. exact Hfree.
  - rewrite Hfiles. apply lookup_insert_eq.
  - exact Hcodec.
  - unfold mine, Pid.record. rewrite strip_record_text by assumption.
    unfold Pid.read_fields. rewrite split_two_fields by assumption.
    rewrite Hint, Hfloat. reflexivity.
  - exact Hown.
Qed.

(** X18: a check and a clean-up undo each other, up to the lock file.
    After a check that returned, [cleanup_pidfile] finds the lock free
    and removes the pid file; what is left are the files from before the
    check, without the pid file and with the empty lock file, which
    stays behind.  Cleaning up once more raises [CannotRemovePidFile],
    for there is nothing left to remove. *)
Theorem check_then_cleanup pidfile find_process os os1 :
  Pid.check_pid_process pidfile find_process os = (Pid.Done tt, os1) ->
  let lock_path := Pid._pidfile_to_lockpath pidfile in
  exists os2,
    Pid.cleanup_pidfile pidfile os1 = Some (Pid.Done tt, os2) /\
    Pid.files os2
    = delete (Pid.path pidfile) (<[Pid.path lock_path := EmptyString]> (Pid.files os)) /\
    Pid.files os2 !! Pid.path pidfile = None /\
    Pid.files os2 !! Pid.path lock_path = Some EmptyString /\
    (Pid.files os !! Pid.path pidfile = None ->
     Pid.files os2 = <[Pid.path lock_path := EmptyString]> (Pid.files os)) /\
    Pid.cleanup_pidfile pidfile os2
    = Some (Pid.Raised (Pid.CannotRemovePidFile pidfile
                          (Pid.FileNotFoundError (Pid.path pidfile))), os2).
Proof.
  intros Hrun lock_path.
  destruct (check_pid_process_done _ _ _ _ Hrun)
    as [Hfree [process [Hown [Hfiles [Hlocked _]]]]].
  fold lock_path in Hfiles.
  assert (Hlock1 : Pid.files os1 !! Pid.path lock_path = Some EmptyString).
  { rewrite Hfiles, lookup_insert_ne by (symmetry; apply lock_path_differs).
    apply lookup_insert_eq. }
  assert (Hfiles2 : Pid.files (Pid.remove pidfile os1)
                    = delete (Pid.path pidfile)
                        (<[Pid.path lock_path := EmptyString]> (Pid.files os))).
  { cbn [Pid.remove Pid.files]. rewrite Hfiles. apply delete_insert_eq. }
  assert (Hlock2 : Pid.files (Pid.remove pidfile os1) !! Pid.path lock_path
                   = Some EmptyString).
  { rewrite Hfiles2, lookup_delete_ne by (symmetry; apply lock_path_differs).
    apply lookup_insert_eq. }
  assert (Hgone : Pid.files (Pid.remove pidfile os1) !! Pid.path pidfile = None).
  { rewrite Hfiles2. apply lookup_delete_eq. }
  exists (Pid.remove pidfile os1). unfold Pid.cleanup_pidfile. fold lock_path.
  rewrite (open_lock_again lock_path os1 Hlock1).
  rewrite (open_lock_again lock_path _ Hlock2), Hgone.
  cbn [Pid.locked Pid.remove].
  rewrite !decide_False by (rewrite Hlocked; exact Hfree).
  split; [rewrite Hfiles, lookup_insert_eq; reflexivity|].
  split; [exact Hfiles2|]. split; [reflexivity|]. split; [exact Hlock2|].
  split; [|reflexivity].
  intros Hnone. rewrite Hfiles2. apply delete_id. rewrite <- Hnone.
  apply lookup_open_lock.
Qed.

(** X19: neither call reaches beyond the pid file and its lock file.
    Whatever [check_pid_process] or [cleanup_pidfile] does and however
    it ends, the lock file is there and empty afterwards, every file
    other than these two has the contents it had, the locks other
    processes hold are as they were, and standard output has only
    grown. *)
Theorem pid_calls_touch_only_the_pidfile pidfile find_process os :
  let lock_path := Pid._pidfile_to_lockpath pidfile in
  (forall outcome os',
      Pid.check_pid_process pidfile find_process os = (outcome, os') ->
      (forall name, name <> Pid.path pidfile -> name <> Pid.path lock_path ->
                    Pid.files os' !! name = Pid.files os !! name) /\
      Pid.files os' !! Pid.path lock_path = Some EmptyString /\
      Pid.locked os' = Pid.locked os /\ Pid.getpid os' = Pid.getpid os /\
      exists printed, Pid.stdout os' = Pid.stdout os ++ printed) /\
  (forall outcome os',
      Pid.cleanup_pidfile pidfile os = Some (outcome, os') ->
      (forall name, name <> Pid.path pidfile -> name <> Pid.path lock_path ->
                    Pid.files os' !! name = Pid.files os !! name) /\
      Pid.files os' !! Pid.path lock_path = Some EmptyString /\
      Pid.locked os' = Pid.locked os /\ Pid.getpid os' = Pid.getpid os /\
      Pid.stdout os' = Pid.stdout os).
Proof.
  intros lock_path.
  pose proof (lock_path_differs pidfile) as Hdiff. subst lock_path.
  split.
  - intros outcome os' Hrun. pid_cases.
    all: (split; [intros q Hq Hq'; simpl;
                  rewrite ?lookup_insert_ne, ?lookup_delete_ne, ?lookup_insert_ne
                    by congruence;
                  reflexivity|]).
    all: (split; [simpl; rewrite ?lookup_insert_ne, ?lookup_delete_ne by congruence;
                  apply lookup_insert_eq|]).
    all: (split; [reflexivity|]; split; [reflexivity|]).
    all: try (exists []; rewrite app_nil_r; reflexivity).
    all: eexists; reflexivity.
  - intros outcome os' Hrun. unfold Pid.cleanup_pidfile in Hrun.
    rewrite lookup_open_lock in Hrun.
    repeat (case_decide || case_match || simplify_eq/=).
    + split; [|split; [|auto]].
      * intros q Hq Hq'. rewrite lookup_delete_ne, lookup_insert_ne by congruence.
        reflexivity.
      * rewrite lookup_delete_ne by congruence. apply lookup_insert_eq.
    + split; [|split; [|auto]].
      * intros q Hq Hq'. rewrite lookup_insert_ne by congruence. reflexivity.
      * apply lookup_insert_eq.
Qed.
End PidFacts.

(** ** The client on concrete inputs *)

Import Stub.

(** A ranged read that the server answers with three bytes instead of the
    ten that were asked for: the three bytes are returned. *)
Lemma read_share_chunk_short_body_is_returned :
  code {| code := 206; phrase := ""; content := Ok "abc" |} = 206 /\
  len "abc" <> 10 /\
  fst (read_share_chunk client "si" 3 10 10 (world [answer 206 "abc"])) = Ok "abc".
Proof. split; [reflexivity|]. split; [discriminate|]. reflexivity. Qed.

Lemma read_share_chunk_returns_body_of_206_witness :
  _encode_si "si" = Ok "onuq" /\ 0 <= 10 /\ 0 < 10 /\
  fst (read_share_chunk client "si" 3 10 10 (world [answer 206 "0123456789"]))
  = Ok "0123456789" /\
  fst (read_share_chunk client "si" 3 10 10 (world [answer 200 "0123456789"]))
  = Raise (ClientException 200 None) /\
  map (fun req => getRawHeaders "Range" (headers req))
    (sent (snd (read_share_chunk client "si" 3 10 10 (world [answer 206 "0123456789"]))))
  = [Some ["bytes=10-19"]].
Proof.
  split; [reflexivity|]. split; [lia|]. split; [lia|]. split; [|split].
  - pose proof (read_share_chunk_returns_body_of_206 client "si" 3 10 10
                  (world [answer 206 "0123456789"])) as [Hsent _].
    destruct (Hsent (read_share_chunk_request client "onuq" 3 10 10) eq_refl)
      as [Hresp _].
    exact (proj1 (Hresp _ eq_refl) eq_refl).
  - pose proof (read_share_chunk_returns_body_of_206 client "si" 3 10 10
                  (world [answer 200 "0123456789"])) as [Hsent _].
    destruct (Hsent (read_share_chunk_request client "onuq" 3 10 10) eq_refl)
      as [Hresp _].
    apply (proj2 (Hresp _ eq_refl)). discriminate.
  - pose proof (read_share_chunk_returns_body_of_206 client "si" 3 10 10
                  (world [answer 206 "0123456789"])) as [_ Hreq].
    rewrite (Hreq "onuq" eq_refl ltac:(lia) ltac:(lia)). reflexivity.
Defined.

Lemma write_share_chunk_progress_witness :
  exists progress,
    fst (write_share_chunk client "si" 1 "up" 50 "0123456789"
           (world [answer 200 "required=0-10,40-50"])) = Ok progress /\
    finished progress = false /\
    forall k, RangeMap.get (required progress) k = Some true
              <-> exists r, In r [(0, 10); (40, 50)] /\ fst r <= k < snd r.
Proof.
  pose proof (write_share_chunk_progress client "si" 1 "up" 50 "0123456789"
                (world [answer 200 "required=0-10,40-50"])
                (write_share_chunk_request client "onuq" 1 "up" 50 "0123456789")
                {| code := 200; phrase := ""; content := Ok "required=0-10,40-50" |}) as T.
  destruct (T eq_refl eq_refl) as [_ [Hok _]].
  apply (Hok (or_introl eq_refl) "required=0-10,40-50"
           (VDict [(VText "required", VList [chunk 0 10; chunk 40 50])])
           [chunk 0 10; chunk 40 50] [(0, 10); (40, 50)]
           eq_refl eq_refl eq_refl eq_refl).
  repeat constructor.
Defined.



Lemma request_authorization_headers_witness :
  exists req,
    sent (snd (_request client "GET" base_url (Some "renew") None (Some "up") None None
                 (world []))) = [req] /\
    default [] (getRawHeaders "Authorization" (headers req))
    = ["Tahoe-LAFS c3dpc3NudW0="] /\
    default [] (getRawHeaders "X-Tahoe-Authorization" (headers req))
    = ["lease-renew-secret cmVuZXc="; "upload-secret dXA="].
Proof.
  pose proof (request_authorization_headers client "GET" base_url
                (Some "renew") None (Some "up") None None (world [])) as [Hreq Hsent].
  destruct Hsent as [req Hrun].
  { intros role v _. destruct role; reflexivity. }
  exists req. rewrite Hrun. split; [reflexivity|].
  destruct (Hreq req) as [_ [_ [_ [Hauth [Hsecrets _]]]]].
  { rewrite Hrun. reflexivity. }
  split; [exact Hauth | exact Hsecrets].
Defined.

Lemma create_posts_and_reports_witness :
  let call := create client "si" [0; 1; 2] 100 "up" "renew" "cancel" in
  let w := world [answer 201 "already-have=;allocated=0,1,2";
                  answer 200 "already-have=0,1,2;allocated="] in
  (exists req,
      sent (snd (call w)) = [req] /\
      sent (snd (call (snd (call w)))) = [req; req] /\
      method req = "POST" /\
      to_text (url req) = "https://storage.example:8443/v1/immutable/onuq" /\
      getRawHeaders "X-Tahoe-Authorization" (headers req)
      = Some ["lease-renew-secret cmVuZXc="; "lease-cancel-secret Y2FuY2Vs";
              "upload-secret dXA="] /\
      getRawHeaders "Authorization" (headers req) = Some ["Tahoe-LAFS c3dpc3NudW0="] /\
      getRawHeaders "Content-Type" (headers req) = Some ["application/cbor"] /\
      data req
      = Some (dumps (VDict [(VText "share-numbers", VSet [VInt 0; VInt 1; VInt 2]);
                            (VText "allocated-size", VInt 100)]))) /\
  map (fun req => to_text (url req))
    (sent (snd (create client "another index" [0] 1 "up" "renew" "cancel" w)))
  = ["https://storage.example:8443/v1/immutable/mfxg65dimvzca2lomrsxq"] /\
  fst (call w)
  = Ok {| already_have := VSet []; allocated := VSet [VInt 0; VInt 1; VInt 2] |} /\
  fst (call (snd (call w)))
  = Ok {| already_have := VSet [VInt 0; VInt 1; VInt 2]; allocated := VSet [] |}.
Proof.
  intros call w.
  assert (Htags : forall role, is_ascii (Secrets_value role) = true)
    by (intros role; destruct role; reflexivity).
  pose proof (create_posts_and_reports client "si" [0; 1; 2] 100 "up" "renew" "cancel" w)
    as [Hissued [_ Honly]].
  destruct (Hissued eq_refl Htags) as [Hsent Hagain].
  split; [|split].
  - eexists. unfold call. rewrite Hagain, Hsent.
    split; [reflexivity|]. split; [reflexivity|]. repeat split.
  - pose proof (create_posts_and_reports client "another index" [0] 1 "up" "renew"
                  "cancel" w) as [Hother _].
    destruct (Hother eq_refl Htags) as [Hsent' _].
    rewrite Hsent'. reflexivity.
  - destruct (Honly (create_request client "onuq" [0; 1; 2] 100 "up" "renew" "cancel")
                eq_refl) as [_ [_ [Hfirst [_ Hrepeat]]]].
    split.
    + apply (proj1 (Hfirst w _ eq_refl) ltac:(simpl; lia) _ _ _ _
               eq_refl eq_refl eq_refl eq_refl).
    + apply (Hrepeat _ _ _ _ _ eq_refl ltac:(simpl; lia) eq_refl eq_refl eq_refl eq_refl).
Defined.

(** [list_shares] turns down a 201 response although 201 is a success
    status and the body decodes to a list of share numbers. *)
Lemma list_shares_rejects_201 :
  200 <= 201 < 300 /\
  loads "0,2" = Some (VList [VInt 0; VInt 2]) /\
  fst (list_shares client "si" (world [answer 201 "0,2"]))
  = Raise (ClientException 201 None).
Proof. split; [lia|]. split; reflexivity. Qed.

Lemma list_shares_accepts_200_only_witness :
  fst (list_shares client "si" (world [answer 200 "0,2"]))
  = Ok (Listset [VInt 0; VInt 2]) /\
  fst (list_shares client "si" (world [answer 204 "0,2"]))
  = Raise (ClientException 204 None).
Proof.
  split.
  - pose proof (list_shares_accepts_200_only client "si" (world [answer 200 "0,2"])
                  (list_shares_request client "onuq")
                  {| code := 200; phrase := ""; content := Ok "0,2" |}) as T.
    destruct (T eq_refl eq_refl) as [H200 _].
    apply (proj2 (H200 eq_refl "0,2" _ eq_refl eq_refl) [0; 2] eq_refl).
  - pose proof (list_shares_accepts_200_only client "si" (world [answer 204 "0,2"])
                  (list_shares_request client "onuq")
                  {| code := 204; phrase := ""; content := Ok "0,2" |}) as T.
    destruct (T eq_refl eq_refl) as [_ Hother].
    apply Hother. discriminate.
Defined.

(** A furl with the right fragment and scheme but no path segment is not
    answered with [None]: the call raises. *)
Lemma from_furl_without_path_raises :
  let furl := {| scheme := "pb"; user := "tubid"; host := "example.invalid";
                 port := Some 3456; path := []; fragment := "v=1" |} in
  fragment furl = "v=1" /\ scheme furl = "pb" /\
  from_furl furl = Raise IndexError /\ from_furl furl <> Ok None.
Proof. repeat split. discriminate. Qed.

Lemma from_furl_returns_None_witness :
  let furl := {| scheme := "pb"; user := "tubid"; host := "example.invalid";
                 port := Some 3456; path := ["swissnum"]; fragment := "v=1" |} in
  fragment furl = "v=1" /\ scheme furl = "pb" /\ from_furl furl = Ok None.
Proof.
  intros furl. split; [reflexivity|]. split; [reflexivity|].
  destruct (from_furl_returns_None furl eq_refl eq_refl) as [Hnone _].
  apply (Hnone "swissnum" [] eq_refl eq_refl eq_refl).
Defined.

Lemma StorageClient_requires_https_witness :
  let http := {| scheme := "http"; user := ""; host := "storage.example"; port := None;
                 path := []; fragment := "" |} in
  to_text http = "http://storage.example/" /\
  StorageClient__init__ http "swissnum" = Raise AssertionError /\
  StorageClient__init__ base_url "swissnum" = Ok client.
Proof.
  intros http. split; [reflexivity|].
  destruct (StorageClient_requires_https http "swissnum") as [_ [Hhttp _]].
  destruct (StorageClient_requires_https base_url "swissnum") as [_ [_ [Hhttps _]]].
  split; [apply Hhttp | apply Hhttps]; reflexivity.
Defined.

Lemma permute_depends_on_candidate_set_only_witness :
  let c1 := {| PeerSelector.basedir := "node-1";
               PeerSelector.connections := ["0"; "1"; "2"; "3"; "4"] |} in
  let c2 := {| PeerSelector.basedir := "node-2";
               PeerSelector.connections := ["4"; "2"; "0"; "3"; "1"] |} in
  PeerSelector.permute score c1 "one" = PeerSelector.permute score c2 "one".
Proof.
  intros c1 c2.
  apply (permute_depends_on_candidate_set_only score c1 c2 "one").
  apply (bool_decide_unpack _). vm_compute. exact I.
Defined.

(** ** The further calls and the pid file on concrete inputs *)

Import PidStub.

Lemma get_version_accepts_any_2xx_witness :
  fst (get_version client (world [answer 299 "0,2"])) = Ok (VList [VInt 0; VInt 2]) /\
  fst (get_version client (world [answer 300 "0,2"]))
  = Raise (ClientException 300 (Some "")).
Proof.
  split.
  - pose proof (get_version_accepts_any_2xx client (world [answer 299 "0,2"]))
      as [_ [Hresp _]].
    destruct (Hresp _ eq_refl) as [Hok _].
    apply (Hok ltac:(simpl; lia) "0,2" eq_refl).
  - pose proof (get_version_accepts_any_2xx client (world [answer 300 "0,2"]))
      as [_ [Hresp _]].
    destruct (Hresp _ eq_refl) as [_ Hbad].
    apply Hbad. right. simpl. lia.
Defined.

Lemma write_share_chunk_request_content_witness :
  exists req,
    sent (snd (write_share_chunk client "si" 1 "up" 50 "0123456789"
                 (world [answer 200 "required=0-50"]))) = [req] /\
    getRawHeaders "Content-Range" (headers req) = Some ["bytes 50-59/*"] /\
    getRawHeaders "X-Tahoe-Authorization" (headers req) = Some ["upload-secret dXA="].
Proof.
  exists (write_share_chunk_request client "onuq" 1 "up" 50 "0123456789").
  split; [reflexivity|].
  pose proof (write_share_chunk_request_content client "si" 1 "up" 50 "0123456789"
                (world [answer 200 "required=0-50"])
                (write_share_chunk_request client "onuq" 1 "up" 50 "0123456789")) as T.
  destruct (T eq_refl) as [_ [_ [_ [_ [_ [Hrange [_ [Hsecret _]]]]]]]].
  split; [exact Hrange | exact Hsecret].
Defined.

Lemma write_share_chunk_rejects_empty_chunk_witness :
  write_share_chunk client "si" 1 "up" 50 "" (world [answer 201 "required="])
  = (Raise AssertionError, world [answer 201 "required="]).
Proof.
  pose proof (write_share_chunk_rejects_empty_chunk client "si" "onuq" 1 "up" 50 ""
                (world [answer 201 "required="])) as T.
  apply (T eq_refl). right. reflexivity.
Defined.

Lemma read_share_chunk_rejects_empty_range_witness :
  read_share_chunk client "si" 1 10 0 (world [answer 206 ""])
  = (Raise ValueError, world [answer 206 ""]).
Proof.
  pose proof (read_share_chunk_rejects_empty_range client "si" "onuq" 1 10 0
                (world [answer 206 ""])) as T.
  apply (T eq_refl). right. lia.
Defined.

Lemma create_request_declares_cbor_witness :
  map (fun req => getRawHeaders "Content-Type" (headers req))
    (sent (snd (create client "si" [0; 1; 2] 100 "up" "renew" "cancel"
                  (world [answer 201 "already-have=;allocated=0,1,2"]))))
  = [Some ["application/cbor"]].
Proof.
  pose proof (create_request_declares_cbor client "si" [0; 1; 2] 100 "up" "renew" "cancel"
                (world [answer 201 "already-have=;allocated=0,1,2"])
                (create_request client "onuq" [0; 1; 2] 100 "up" "renew" "cancel")) as T.
  destruct (T eq_refl) as [Htype _].
  change (sent _) with [create_request client "onuq" [0; 1; 2] 100 "up" "renew" "cancel"].
  cbn [map]. rewrite Htype. reflexivity.
Defined.

Lemma create_malformed_success_body_witness :
  fst (create client "si" [0; 1; 2] 100 "up" "renew" "cancel" (world [answer 200 "0,2"]))
  = Raise TypeError /\
  fst (create client "si" [0; 1; 2] 100 "up" "renew" "cancel"
         (world [answer 200 "required=0-50"]))
  = Raise (KeyError "already-have").
Proof.
  split.
  - pose proof (create_malformed_success_body client "si" [0; 1; 2] 100 "up" "renew"
                  "cancel" (world [answer 200 "0,2"])
                  (create_request client "onuq" [0; 1; 2] 100 "up" "renew" "cancel")
                  {| code := 200; phrase := ""; content := Ok "0,2" |} "0,2") as T.
    destruct (T eq_refl eq_refl ltac:(simpl; lia) eq_refl) as [_ [Hshape _]].
    apply (Hshape _ eq_refl). discriminate.
  - pose proof (create_malformed_success_body client "si" [0; 1; 2] 100 "up" "renew"
                  "cancel" (world [answer 200 "required=0-50"])
                  (create_request client "onuq" [0; 1; 2] 100 "up" "renew" "cancel")
                  {| code := 200; phrase := ""; content := Ok "required=0-50" |}
                  "required=0-50") as T.
    destruct (T eq_refl eq_refl ltac:(simpl; lia) eq_refl) as [_ [_ [Hkey _]]].
    apply (Hkey _ eq_refl). reflexivity.
Defined.

Lemma write_share_chunk_malformed_body_witness :
  fst (write_share_chunk client "si" 1 "up" 50 "0123456789"
         (world [answer 200 "already-have=;allocated=0,1,2"]))
  = Raise (KeyError "required").
Proof.
  pose proof (write_share_chunk_malformed_body client "si" 1 "up" 50 "0123456789"
                (world [answer 200 "already-have=;allocated=0,1,2"])
                (write_share_chunk_request client "onuq" 1 "up" 50 "0123456789")
                {| code := 200; phrase := "";
                   content := Ok "already-have=;allocated=0,1,2" |}) as T.
  destruct (T eq_refl eq_refl) as [_ Hok].
  destruct (Hok (or_introl eq_refl)) as [_ Hbody].
  destruct (Hbody _ eq_refl) as [_ [Hkey _]].
  apply (Hkey _ eq_refl). reflexivity.
Defined.

Lemma list_shares_body_shapes_witness :
  exists shares,
    fst (list_shares client "si" (world [answer 200 "0,2"])) = Ok shares /\
    forall x, x ∈ shares <-> In x [VInt 0; VInt 2].
Proof.
  pose proof (list_shares_body_shapes client "si" (world [answer 200 "0,2"])
                (list_shares_request client "onuq")
                {| code := 200; phrase := ""; content := Ok "0,2" |} "0,2"
                (VList [VInt 0; VInt 2])) as T.
  destruct (T eq_refl eq_refl eq_refl eq_refl eq_refl) as [Hlist _].
  apply (Hlist _ (or_introl eq_refl) eq_refl).
Defined.

Lemma from_furl_outcomes_witness :
  from_furl {| scheme := "http"; user := "tubid"; host := "example.invalid";
               port := Some 3456; path := ["swissnum"]; fragment := "v=1" |}
  = Raise AssertionError.
Proof.
  apply (proj1 (from_furl_outcomes _)). right. discriminate.
Defined.

Lemma check_pid_process_writes_own_record_witness :
  let os' := snd (Pid.check_pid_process pidfile find_process (os_with None)) in
  Pid.files os' !! "/var/run/tahoe.pid" = Some ("4242 1700000000.0" ++ newline)%string /\
  Pid.files os' !! "/var/run/tahoe.pid.lock" = Some EmptyString.
Proof.
  intros os'.
  pose proof (check_pid_process_writes_own_record pidfile find_process (os_with None)
                os') as T.
  destruct (T eq_refl) as [_ [process [Hown [Hfiles _]]]].
  rewrite Hfiles. injection Hown as <-. split; reflexivity.
Defined.

Lemma check_pid_process_failure_effects_witness :
  let os := os_with (Some "77 12.0") in
  let os' := snd (Pid.check_pid_process pidfile nobody os) in
  fst (Pid.check_pid_process pidfile nobody os) = Pid.Raised (Pid.NoSuchProcess 4242) /\
  Pid.files os' !! "/var/run/tahoe.pid" = None /\
  Pid.files os' !! "/var/run/tahoe.pid.lock" = Some EmptyString.
Proof.
  intros os os'. split; [reflexivity|].
  pose proof (check_pid_process_failure_effects pidfile nobody os os'
                (Pid.NoSuchProcess 4242)) as T.
  destruct (T eq_refl) as [Hsame | [raw [decoded [pid [starttime [gone Hstale]]]]]].
  - rewrite Hsame. discriminate.
  - destruct Hstale as [_ [_ [_ [_ [_ [Hfiles _]]]]]]. rewrite Hfiles.
    split; reflexivity.
Defined.

Lemma check_pid_process_refuses_second_instance_witness :
  Pid.check_pid_process pidfile find_process (os_with (Some "1 5.0"))
  = (Pid.Raised (Pid.ProcessInTheWay "A process is already running as PID 1"),
     {| Pid.files := {[ "/var/run/tahoe.pid.lock" := EmptyString;
                        "/var/run/tahoe.pid" := "1 5.0" ]};
        Pid.locked := ∅; Pid.stdout := []; Pid.getpid := 4242 |}).
Proof.
  pose proof (check_pid_process_refuses_second_instance pidfile find_process
                (os_with (Some "1 5.0"))) as [_ [T _]].
  rewrite (T ltac:(set_solver) "1 5.0" (Pid.text_of_string "1 5.0") 1 (seconds 5)
             (started 5) eq_refl eq_refl eq_refl eq_refl).
  reflexivity.
Defined.

Lemma check_pid_process_invalid_pidfile_witness :
  Pid.check_pid_process pidfile find_process (os_with (Some "1 5.0 7"))
  = (Pid.Raised (Pid.InvalidPidFile pidfile),
     {| Pid.files := {[ "/var/run/tahoe.pid.lock" := EmptyString;
                        "/var/run/tahoe.pid" := "1 5.0 7" ]};
        Pid.locked := ∅; Pid.stdout := []; Pid.getpid := 4242 |}).
Proof.
  pose proof (check_pid_process_invalid_pidfile pidfile find_process
                (os_with (Some "1 5.0 7")) "1 5.0 7") as T.
  destruct (T ltac:(set_solver) eq_refl) as [_ [_ Hbad]].
  rewrite (Hbad (Pid.text_of_string "1 5.0 7") eq_refl) by (left; discriminate).
  reflexivity.
Defined.

Lemma check_pid_process_replaces_stale_pidfile_witness :
  exists os',
    Pid.check_pid_process pidfile find_process (os_with (Some "77 12.0"))
    = (Pid.Done tt, os') /\
    Pid.files os' !! Pid.path pidfile = Some ("4242 1700000000.0" ++ newline)%string /\
    Pid.stdout os' = ["'/var/run/tahoe.pid' refers to 77 that isn't running"].
Proof.
  pose proof (check_pid_process_replaces_stale_pidfile pidfile find_process
                (os_with (Some "77 12.0")) "77 12.0" (Pid.text_of_string "77 12.0")
                77 (seconds 12) 77) as T.
  destruct (T ltac:(set_solver) eq_refl eq_refl eq_refl eq_refl) as [Hfresh _].
  apply (Hfresh (started 1700000000) eq_refl).
Defined.

Lemma check_pid_process_twice_witness :
  let os' := snd (Pid.check_pid_process pidfile find_process (os_with None)) in
  Pid.check_pid_process pidfile find_process os'
  = (Pid.Raised (Pid.ProcessInTheWay "A process is already running as PID 4242"), os').
Proof.
  intros os'.
  pose proof (check_pid_process_twice pidfile find_process (os_with None) os'
                (started 1700000000)) as T.
  apply T; try reflexivity.
  - eexists. reflexivity.
  - discriminate.
  - repeat constructor.
Defined.

Lemma check_then_cleanup_witness :
  exists os2,
    Pid.cleanup_pidfile pidfile
      (snd (Pid.check_pid_process pidfile find_process (os_with None)))
    = Some (Pid.Done tt, os2) /\
    Pid.files os2 = {[ "/var/run/tahoe.pid.lock" := EmptyString ]}.
Proof.
  pose proof (check_then_cleanup pidfile find_process (os_with None)
                (snd (Pid.check_pid_process pidfile find_process (os_with None)))) as T.
  destruct (T eq_refl) as [os2 [Hclean [_ [_ [_ [Hsame _]]]]]].
  exists os2. split; [exact Hclean|]. rewrite Hsame by reflexivity. reflexivity.
Defined.

Lemma pid_calls_touch_only_the_pidfile_witness :
  let os' := snd (Pid.check_pid_process pidfile find_process (os_with None)) in
  Pid.files os' !! "/etc/passwd" = None /\
  Pid.files os' !! "/var/run/tahoe.pid.lock" = Some EmptyString.
Proof.
  intros os'.
  pose proof (pid_calls_touch_only_the_pidfile pidfile find_process (os_with None))
    as [T _].
  destruct (T _ os' eq_refl) as [Hother [Hlock _]].
  split; [|exact Hlock].
  rewrite Hother by discriminate. reflexivity.
Defined.
